(** * Sensitivity sampling and federated averaging: a shallow embedding

    The development follows the two Python modules of the framework:

    - [shfl/differential_privacy/sensitivity_sampler.py]
      ([SensitivitySampler]: [sample_sensitivity], [_sensitivity_sampler],
      [_sensitivity_norm], [_sensitivity_sampler_config]);
    - [shfl/federated_aggregator/fedavg_aggregator.py]
      ([FedAvgAggregator.aggregate_weights]).

    Python floats ([np.float64]) are idealised as mathematical reals: [R]
    with [exp], [ln], [sqrt] and the integer ceiling.  Rounding, NaN and
    overflow are outside the model; the single non-finite value the
    sampler itself writes ([np.inf], the initial fill of the sample array)
    is kept as a separate constructor.  Python exceptions are values of an
    error type and every call that can raise returns a sum. *)

From Stdlib Require Import Reals Ranalysis5 Lra Lia ZArith List Bool Epsilon.
From Stdlib Require Import Sorted Permutation.
Import ListNotations.

Set Implicit Arguments.

(** ** Exceptions and results *)

(** The exception classes that the modelled statements can raise, plus
    [InvalidConfiguration], the configuration-error class of the
    specification's taxonomy (no statement of the two modules raises it),
    plus whatever a collaborator object raises. *)
Inductive exn (E : Type) : Type :=
| TypeError
| ZeroDivisionError
| ValueError
| IndexError
| InvalidConfiguration
| Collaborator (e : E).

Arguments TypeError {E}.
Arguments ZeroDivisionError {E}.
Arguments ValueError {E}.
Arguments IndexError {E}.
Arguments InvalidConfiguration {E}.

Inductive result (E A : Type) : Type :=
| Ok (a : A)
| Raise (e : exn E).

Arguments Ok {E A} a.
Arguments Raise {E A} e.

(** ** The numpy and scipy primitives used by the code *)

Module NumPy.

Local Open Scope R_scope.

(** [np.ceil] on a float: the least integer that is not below [x],
    still a float. *)
Definition ceil (x : R) : R := IZR (Zceil x).

(** Python's [int(x)] on a float truncates towards zero. *)
Definition int (x : R) : Z :=
  if Rle_dec 0 x then Zfloor x else Zceil x.

(** An entry of a float array: a real number or [np.inf]. *)
Inductive float : Type :=
| Finite (x : R)
| Inf.

Definition leb (x y : float) : bool :=
  match x, y with
  | _, Inf => true
  | Inf, Finite _ => false
  | Finite a, Finite b => if Rle_dec a b then true else false
  end.

Definition add (x y : float) : float :=
  match x, y with
  | Finite a, Finite b => Finite (a + b)
  | _, _ => Inf
  end.

(** Division of a float by a positive count. *)
Definition div_count (x : float) (n : nat) : float :=
  match x with
  | Finite a => Finite (a / INR n)
  | Inf => Inf
  end.

(** [np.ones(m) * np.inf] *)
Definition full_inf (m : nat) : list float := repeat Inf m.

(** [gs[i] = v] for an index inside the array (the loop of the sampler
    only writes at [i] in [range(0, m)]). *)
Fixpoint setitem (gs : list float) (i : nat) (v : float) : list float :=
  match gs, i with
  | [], _ => []
  | _ :: tl, O => v :: tl
  | x :: tl, S j => x :: setitem tl j v
  end.

(** [np.sort], ascending. *)
Fixpoint insert (x : float) (l : list float) : list float :=
  match l with
  | [] => [x]
  | y :: tl => if leb x y then x :: l else y :: insert x tl
  end.

Definition sort (l : list float) : list float := fold_right insert [] l.

Definition sum (l : list float) : float := fold_right add (Finite 0) l.

(** [np.mean] of a one-dimensional array. *)
Definition mean (l : list float) : float := div_count (sum l) (length l).

(** The exact sum of a list of reals: what the statements about [mean]
    are phrased with. *)
Definition Rsum (l : list R) : R := fold_right Rplus 0 l.

(** [a[i]] with a Python integer: negative indices count from the end,
    anything outside [-len, len) raises [IndexError]. *)
Definition getitem {E A} (a : list A) (i : Z) : result E A :=
  let len := Z.of_nat (length a) in
  let j := if (i <? 0)%Z then (len + i)%Z else i in
  if ((0 <=? j)%Z && (j <? len)%Z)%bool then
    match nth_error a (Z.to_nat j) with
    | Some x => Ok x
    | None => Raise IndexError
    end
  else Raise IndexError.

End NumPy.

Module SciPy.

Local Open Scope R_scope.

(** Where the imaginary part [b] of [W_k(z)] lies, for a real [z < 0]
    approached from above the branch cut (scipy's convention).  Branch
    [-1] is real, and at most [-1], exactly when [-1/e <= z < 0];
    branch [0] is real, and at least [-1], on the same interval; every
    other branch is complex on the whole negative axis. *)
Definition branch_range (k : Z) (a b : R) : Prop :=
  match k with
  | Z0 => (b = 0 /\ -1 <= a) \/ 0 < b < PI
  | Zneg xH => (b = 0 /\ a <= -1) \/ - PI < b < 0
  | Zpos _ => 2 * IZR k * PI < b < (2 * IZR k + 1) * PI
  | Zneg _ => (2 * IZR k + 1) * PI < b < (2 * IZR k + 2) * PI
  end.

(** [a] is the real part of a solution [w = a + i b] of [w * e^w = z] on
    branch [k]; the two equations are the real and the imaginary part of
    [w * e^w = z]. *)
Definition is_lambertw (k : Z) (z a : R) : Prop :=
  exists b : R,
    branch_range k a b /\
    exp a * (a * cos b - b * sin b) = z /\
    exp a * (a * sin b + b * cos b) = 0.

(** [np.real(special.lambertw(z, k))] for a negative real [z]. *)
Definition real_lambertw (z : R) (k : Z) : R :=
  epsilon (inhabits 0) (is_lambertw k z).

(** The image of the negative real axis under branch 1 is a curve
    [a + i b] with [b = t + 2 PI], [0 < t < PI] and [a = - b cot t]; along
    it [- w * e^w] is the following function of [t]. *)
Definition W1_curve (t : R) : R :=
  (t + 2 * PI) * exp (- ((t + 2 * PI) * (cos t / sin t))) / sin t.

(** The real lower branch: [w * e^w] on [w <= -1]. *)
Definition Wm1_curve (w : R) : R := w * exp w.

End SciPy.

(** ** [SensitivitySampler._sensitivity_sampler_config] *)

Module Config.

Local Open Scope R_scope.

(** The returned dictionary [{'m': m, 'gamma': gamma, 'k': k, 'rho': rho}].
    Integer entries (a supplied [m], and [k = m]) are embedded by [IZR]. *)
Record config : Type := mkConfig {
  cfg_m : R;
  cfg_gamma : R;
  cfg_k : R;
  cfg_rho : R
}.

(** The confidence floor [gamma_lo] of the source, as a function of the
    returned entries: [rho + sqrt(ln(1/rho) / (2 m))]. *)
Definition gamma_lo (c : config) : R :=
  cfg_rho c + sqrt (ln (1 / cfg_rho c) / (2 * cfg_m c)).

(** In the source [m] is rebound by the first branch; here the rebound
    value is [m']. *)
Definition _sensitivity_sampler_config {E} (m : option Z) (gamma : option R)
  : result E config :=
  match m with
  | None =>
      match gamma with
      | None => Raise TypeError          (* [-gamma] on [None] *)
      | Some gamma =>
          let lambert_value :=
            SciPy.real_lambertw (- gamma / (2 * exp (1 / 2))) 1 in
          let rho := exp (lambert_value + 1 / 2) in
          let m' := NumPy.ceil (ln (1 / rho) / (2 * (gamma - rho) ^ 2)) in
          let gamma_lo := rho + sqrt (ln (1 / rho) / (2 * m')) in
          let k := NumPy.ceil (m' * (1 - gamma + gamma_lo)) in
          Ok (mkConfig m' gamma k rho)
      end
  | Some mz =>
      if (mz =? 0)%Z then Raise ZeroDivisionError   (* [-1 / (4 * m)] *)
      else
        let m := IZR mz in
        let rho := exp (SciPy.real_lambertw (- 1 / (4 * m)) 1 / 2) in
        let gamma_lo := rho + sqrt (ln (1 / rho) / (2 * m)) in
        match gamma with
        | None => Ok (mkConfig m gamma_lo m rho)
        | Some gamma =>
            let k := NumPy.ceil (m * (1 - gamma + gamma_lo)) in
            Ok (mkConfig m gamma k rho)
        end
  end.

End Config.

(** ** The sampling loop of [SensitivitySampler] *)

Module Sampler.

Import NumPy Config.

Section Collaborators.

(** [Rec] is the record type of a database, [Val] what the query
    returns, [St] the joint state of the three caller-supplied
    objects (a random generator, counters, ...), [E] what they raise. *)
Variables Rec Val St E : Type.

(** The objects [oracle], [query] and [sensitivity_norm].  A method is
    given a state and returns what it raises ([inl]) or returns
    ([inr]), and the next state. *)
Record collaborators : Type := mkCollaborators {
  oracle_sample : Z -> St -> (E + list Rec) * St;
  query_get : list Rec -> St -> (E + Val) * St;
  norm_compute : Val -> Val -> St -> (E + R) * St
}.

(** Computations that read and change the collaborators' state and
    may raise. *)
Definition M (A : Type) : Type := St -> result E A * St.

Definition ret {A} (a : A) : M A := fun s => (Ok a, s).

Definition bind {A B} (c : M A) (f : A -> M B) : M B :=
  fun s =>
    match c s with
    | (Ok a, s') => f a s'
    | (Raise e, s') => (Raise e, s')
    end.

Definition lift {A} (r : result E A) : M A := fun s => (r, s).

(** A method call: an exception of the callee propagates as it is. *)
Definition call {A} (method : St -> (E + A) * St) : M A :=
  fun s =>
    match method s with
    | (inr a, s') => (Ok a, s')
    | (inl e, s') => (Raise (Collaborator e), s')
    end.

Notation "x <- c ;; f" := (bind c (fun x => f))
  (at level 61, c at next level, right associativity).

Variable C : collaborators.

Definition _sensitivity_norm (x1 x2 : list Rec) : M R :=
  value_1 <- call (query_get C x1) ;;
  value_2 <- call (query_get C x2) ;;
  call (norm_compute C value_1 value_2).

(** Lines 66 to 69 of the loop body: the two databases of one trial. *)
Definition sample_databases (n : Z) : M (list Rec * list Rec) :=
  db1 <- call (oracle_sample C (n - 1)) ;;
  let db2 := db1 in
  new1 <- call (oracle_sample C 1) ;;
  let db1 := db1 ++ new1 in
  new2 <- call (oracle_sample C 1) ;;
  let db2 := db2 ++ new2 in
  ret (db1, db2).

(** The right-hand side of [gs[i] = ...] for one [i]. *)
Definition trial (n : Z) : M R :=
  dbs <- sample_databases n ;;
  _sensitivity_norm (fst dbs) (snd dbs).

(** [for i in range(i, i + todo): gs[i] = ...] *)
Fixpoint loop (n : Z) (i todo : nat) (gs : list float) : M (list float) :=
  match todo with
  | O => ret gs
  | S todo' =>
      v <- trial n ;;
      loop n (S i) todo' (setitem gs i (Finite v))
  end.

Definition _sensitivity_sampler (n m k : Z) : M (float * float) :=
  if (m <? 0)%Z then lift (Raise ValueError)     (* [np.ones(m)] *)
  else
    let gs := full_inf (Z.to_nat m) in
    gs <- loop n 0 (Z.to_nat m) gs ;;
    let gs := sort gs in
    sensitivity <- lift (getitem gs (k - 1)) ;;
    ret (sensitivity, mean gs).

Definition sample_sensitivity (n : Z) (m : option Z) (gamma : option R)
  : M (float * float) :=
  sensitivity_sampler_config <- lift (_sensitivity_sampler_config m gamma) ;;
  _sensitivity_sampler n
    (int (cfg_m sensitivity_sampler_config))
    (int (cfg_k sensitivity_sampler_config)).

(** The samples of [todo] consecutive trials, in trial order: what the
    loop writes, without the array. *)
Fixpoint trials (n : Z) (todo : nat) : M (list R) :=
  match todo with
  | O => ret []
  | S todo' =>
      v <- trial n ;;
      vs <- trials n todo' ;;
      ret (v :: vs)
  end.

End Collaborators.

Arguments ret {St E A} a.
Arguments lift {St E A} r.

End Sampler.

(** ** [FedAvgAggregator.aggregate_weights] *)

Module FedAvg.

Local Open Scope R_scope.

(** The parameters of one layer, in the order of the array's buffer. *)
Definition layer : Type := list R.

(** [np.add] of two arrays of one shape. *)
Fixpoint add_arrays (x y : layer) : layer :=
  match x, y with
  | a :: x', b :: y' => (a + b) :: add_arrays x' y'
  | _, _ => []
  end.

(** [np.mean(rows, axis=0)]: the rows are added up, then every entry is
    divided by the number of rows. *)
Definition mean_axis0 (rows : list layer) : layer :=
  match rows with
  | [] => []
  | r :: rs =>
      map (fun x => x / INR (length rows)) (fold_left add_arrays rs r)
  end.

(** [clients_params_array[:, layer]] *)
Definition column (clients_params_array : list (list layer)) (j : nat)
  : list layer :=
  map (fun client => nth j client []) clients_params_array.

(** The function returns the aggregated weights; the second component
    is the caller's list after the call ([np.array] copies it and
    nothing is assigned to it).  [shape[1]] does not exist for an empty
    list. *)
Definition aggregate_weights {E} (clients_params : list (list layer))
  : result E (list layer) * list (list layer) :=
  let clients_params_array := clients_params in
  match clients_params_array with
  | [] => (Raise IndexError, clients_params)
  | client :: _ =>
      let shape := length client in
      let aggregated_weights :=
        map (fun layer => mean_axis0 (column clients_params_array layer))
            (seq 0 shape) in
      (Ok aggregated_weights, clients_params)
  end.

End FedAvg.

(** ** The calibration algorithm in the words of the specification *)

Module Spec.

Import Config.
Local Open Scope R_scope.

(** Section 4.1, over the real function [W] that inverts [w * e^w]:
    two branches on whether [m] is supplied; no result when both
    arguments are absent. *)
Definition calibrate_with (W : R -> R) (m : option Z) (gamma : option R)
  : option config :=
  match m, gamma with
  | None, None => None
  | None, Some gamma =>
      let rho := exp (W (- gamma / (2 * exp (1 / 2))) + 1 / 2) in
      let m := NumPy.ceil (ln (1 / rho) / (2 * (gamma - rho) ^ 2)) in
      let gamma_lo := rho + sqrt (ln (1 / rho) / (2 * m)) in
      Some (mkConfig m gamma (NumPy.ceil (m * (1 - gamma + gamma_lo))) rho)
  | Some mz, gamma =>
      let m := IZR mz in
      let rho := exp (W (- 1 / (4 * m)) / 2) in
      let gamma_lo := rho + sqrt (ln (1 / rho) / (2 * m)) in
      match gamma with
      | None => Some (mkConfig m gamma_lo m rho)
      | Some gamma =>
          Some (mkConfig m gamma (NumPy.ceil (m * (1 - gamma + gamma_lo))) rho)
      end
  end.

(** "the lower branch (branch index -1) of the Lambert W function" *)
Definition calibrate : option Z -> option R -> option config :=
  calibrate_with (fun z => SciPy.real_lambertw z (-1)).

(** The inputs the specification calls valid: [m] a positive integer or
    absent, [gamma] in (0,1) or absent, at least one present. *)
Definition valid_input (m : option Z) (gamma : option R) : Prop :=
  match m with Some mz => (1 <= mz)%Z | None => True end /\
  match gamma with Some g => 0 < g < 1 | None => True end /\
  (m <> None \/ gamma <> None).

End Spec.

(** ** Collaborators for concrete runs *)

Module Demo.

Import Sampler.

Inductive tape_error : Type := Exhausted | NegativeSize.

(** An oracle that hands out the records of a finite tape, in order. *)
Definition tape_sample (size : Z) (tape : list Z)
  : (tape_error + list Z) * list Z :=
  if (size <? 0)%Z then (inl NegativeSize, tape)
  else if (Z.of_nat (length tape) <? size)%Z then (inl Exhausted, tape)
  else (inr (firstn (Z.to_nat size) tape), skipn (Z.to_nat size) tape).

(** The query that returns the last record of the database. *)
Definition last_record (db : list Z) (tape : list Z)
  : (tape_error + Z) * list Z :=
  (inr (last db 0%Z), tape).

(** The absolute difference. *)
Definition abs_diff (v1 v2 : Z) (tape : list Z) : (tape_error + R) * list Z :=
  (inr (IZR (Z.abs (v1 - v2))), tape).

Definition tape_run : collaborators Z Z (list Z) tape_error :=
  mkCollaborators tape_sample last_record abs_diff.

(** Records for three trials with [n = 5]: four shared records and two
    extra ones per trial; the extra records are (1,0), (1,1) and (0,1). *)
Definition tape : list Z :=
  [0; 0; 0; 0; 1; 0;  0; 0; 0; 0; 1; 1;  0; 0; 0; 0; 0; 1]%Z.



End Demo.

(** ** Observing the calls made to the collaborators *)

Module Observe.

Import Sampler.

(** How often each method was called, and how many records the oracle
    was asked for in total. *)
Record counts : Type := mkCounts {
  sample_calls : nat;
  records_asked : Z;
  get_calls : nat;
  compute_calls : nat
}.

Definition no_calls : counts := mkCounts 0 0 0 0.

Section Counting.

Variables Rec Val St E : Type.

(** The same three objects, with a counter beside their state; a call
    is counted whether it returns or raises. *)
Definition counting (C : collaborators Rec Val St E)
  : collaborators Rec Val (St * counts) E :=
  mkCollaborators
    (fun size sc =>
       let (r, s') := oracle_sample C size (fst sc) in
       (r, (s', mkCounts (S (sample_calls (snd sc)))
                         (records_asked (snd sc) + size)
                         (get_calls (snd sc))
                         (compute_calls (snd sc)))))
    (fun db sc =>
       let (r, s') := query_get C db (fst sc) in
       (r, (s', mkCounts (sample_calls (snd sc))
                         (records_asked (snd sc))
                         (S (get_calls (snd sc)))
                         (compute_calls (snd sc)))))
    (fun v1 v2 sc =>
       let (r, s') := norm_compute C v1 v2 (fst sc) in
       (r, (s', mkCounts (sample_calls (snd sc))
                         (records_asked (snd sc))
                         (get_calls (snd sc))
                         (S (compute_calls (snd sc)))))).

End Counting.

(** A second tape for [n = 5] and three trials: the extra records are
    (1,1), (1,0) and (0,1), so the samples are 0, 1, 1. *)
Definition tape_reordered : list Z :=
  [0; 0; 0; 0; 1; 1;  0; 0; 0; 0; 1; 0;  0; 0; 0; 0; 0; 1]%Z.

End Observe.

(** * Properties *)

(** ** Rounding *)

Section Rounding.

Local Open Scope R_scope.

Lemma ceil_upper (x : R) : x <= NumPy.ceil x.
Proof. unfold NumPy.ceil. apply (Zceil_bound x). Qed.

Lemma ceil_lower (x : R) : NumPy.ceil x - 1 < x.
Proof. unfold NumPy.ceil. apply (Zceil_bound x). Qed.

Lemma ceil_pos (x : R) : 0 < x -> 1 <= NumPy.ceil x.
Proof.
  intros Hx. unfold NumPy.ceil.
  assert (H : (0 < Zceil x)%Z).
  { apply lt_IZR. pose proof (Zceil_bound x). lra. }
  apply IZR_le. lia.
Qed.

Lemma ceil_le_IZR (x : R) (n : Z) : x <= IZR n -> NumPy.ceil x <= IZR n.
Proof.
  intros Hx. unfold NumPy.ceil. apply IZR_le.
  assert (H : (Zceil x < n + 1)%Z).
  { apply lt_IZR. rewrite plus_IZR. pose proof (Zceil_bound x). lra. }
  lia.
Qed.

Lemma ceil_gt_IZR (x : R) (n : Z) : IZR n < x -> IZR n + 1 <= NumPy.ceil x.
Proof.
  intros Hx. unfold NumPy.ceil. rewrite <- plus_IZR. apply IZR_le.
  assert (H : (n < Zceil x)%Z).
  { apply lt_IZR. pose proof (Zceil_bound x). lra. }
  lia.
Qed.

Lemma ceil_mono (x y : R) : x <= y -> NumPy.ceil x <= NumPy.ceil y.
Proof. intros H. unfold NumPy.ceil. apply IZR_le, Zceil_le, H. Qed.

Lemma Zceil_IZR (n : Z) : Zceil (IZR n) = n.
Proof. apply Zceil_eq. lra. Qed.

Lemma int_IZR (n : Z) : NumPy.int (IZR n) = n.
Proof.
  unfold NumPy.int. destruct (Rle_dec 0 (IZR n)).
  - apply ZfloorZ.
  - apply Zceil_IZR.
Qed.

Lemma int_ceil (x : R) : NumPy.int (NumPy.ceil x) = Zceil x.
Proof. unfold NumPy.ceil. apply int_IZR. Qed.

End Rounding.

(** ** The Lambert W function on the negative real axis *)

Section LambertW.

Import SciPy.
Local Open Scope R_scope.

Lemma W1_curve_continuous t : 0 < t < PI -> continuity_pt W1_curve t.
Proof.
  intros Ht.
  assert (Hs : sin t <> 0) by (apply Rgt_not_eq, sin_gt_0; lra).
  unfold W1_curve.
  change (continuity_pt
    ((((id + fct_cte (2 * PI)) * comp exp (- ((id + fct_cte (2 * PI)) * (cos / sin)))) / sin)%F) t).
  assert (Hid : continuity_pt (id + fct_cte (2 * PI))%F t).
  { apply continuity_pt_plus.
    - apply derivable_continuous_pt, derivable_pt_id.
    - apply continuity_pt_const. intros x y. reflexivity. }
  apply continuity_pt_div; [ | apply continuity_sin | exact Hs].
  apply continuity_pt_mult; [exact Hid | ].
  apply continuity_pt_comp.
  - apply continuity_pt_opp, continuity_pt_mult; [exact Hid | ].
    apply continuity_pt_div; [apply continuity_cos | apply continuity_sin | exact Hs].
  - apply derivable_continuous_pt, derivable_pt_exp.
Qed.

Lemma exp_4_lower u : 1 <= u -> 11 * (u * u) <= exp (4 * u).
Proof.
  intros Hu.
  assert (HE : 1 + u <= exp u) by apply exp_ineq1_le.
  replace (4 * u) with ((u + u) + (u + u)) by ring.
  rewrite !exp_plus.
  set (e := exp u) in *.
  assert (He : 2 <= e) by lra.
  assert (H2 : (1 + u) * (1 + u) <= e * e) by nra.
  assert (H3 : 0 <= (1 + u) * (1 + u)) by nra.
  assert (H4 : ((1 + u) * (1 + u)) * ((1 + u) * (1 + u)) <= (e * e) * (e * e)).
  { apply Rmult_le_compat; lra. }
  nra.
Qed.

Lemma W1_curve_small c : 0 < c -> exists t, 0 < t <= 1 / 2 /\ W1_curve t < c.
Proof.
  intros Hc.
  exists (Rmin (1 / 2) c).
  set (t := Rmin (1 / 2) c).
  assert (Ht0 : 0 < t) by (unfold t; apply Rmin_glb_lt; lra).
  assert (Ht1 : t <= 1 / 2) by apply Rmin_l.
  assert (Htc : t <= c) by apply Rmin_r.
  split; [lra | ].
  assert (Hpi := PI2_3_2). assert (Hpi4 := PI_4).
  assert (Hs0 : 0 < sin t) by (apply sin_gt_0; lra).
  assert (Hst : sin t < t) by (apply sin_lt_x; lra).
  assert (Hc0 : 0 < cos t) by (apply cos_gt_0; lra).
  assert (Hsc := sin2_cos2 t). unfold Rsqr in Hsc.
  assert (Hss : sin t * sin t <= 1 / 4) by nra.
  assert (Hcos : 4 / 5 <= cos t).
  { destruct (Rle_lt_dec (4 / 5) (cos t)) as [H | H]; [exact H | ].
    assert (cos t * cos t < 16 / 25) by (clear - H Hc0; nra). lra. }
  unfold W1_curve.
  set (B := t + 2 * PI).
  set (s := sin t) in *. set (u := / s).
  assert (Hu : 0 < u) by (apply Rinv_0_lt_compat; exact Hs0).
  assert (Hus : u * s = 1) by (unfold u; field; lra).
  assert (Hu1 : 1 <= u) by nra.
  assert (HB : 6 < B <= 17 / 2) by (unfold B; lra).
  assert (Hx : 4 * u <= B * (cos t / s)).
  { unfold Rdiv. fold u.
    assert (HBc : 4 <= B * cos t) by nra.
    rewrite <- Rmult_assoc. apply Rmult_le_compat_r; lra. }
  assert (He : exp (- (B * (cos t / s))) <= / exp (4 * u)).
  { rewrite <- exp_Ropp. destruct Hx as [Hx | Hx].
    - left. apply exp_increasing. lra.
    - rewrite Hx. right. reflexivity. }
  assert (H11 := @exp_4_lower u Hu1).
  assert (Hinv : / exp (4 * u) <= / (11 * (u * u))).
  { apply Rinv_le_contravar; [nra | exact H11]. }
  assert (Hpos : 0 < exp (- (B * (cos t / s)))) by apply exp_pos.
  set (ex := exp (- (B * (cos t / s)))) in *.
  assert (Hex : ex * (11 * (u * u)) <= 1).
  { assert (ex <= / (11 * (u * u))) by lra.
    assert (0 < 11 * (u * u)) by nra.
    apply Rmult_le_reg_r with (/ (11 * (u * u))).
    - apply Rinv_0_lt_compat; assumption.
    - rewrite Rmult_assoc, Rinv_r by lra. lra. }
  unfold Rdiv. fold u.
  (* B * ex * u < s <= c *)
  assert (B * ex * u < s); [ | lra].
  assert (Hk : B * ex * u * u <= 17 / 2 * / 11).
  { assert (ex * (u * u) <= / 11) by lra. nra. }
  apply Rmult_lt_reg_r with u; [exact Hu | ].
  rewrite (Rmult_comm s u), Hus. lra.
Qed.

Lemma W1_curve_large c : 0 < c -> exists t, PI / 2 <= t < PI /\ c < W1_curve t.
Proof.
  intros Hc.
  assert (Hpi := PI2_3_2). assert (Hpi4 := PI_4).
  assert (Hic : 0 < / c) by (apply Rinv_0_lt_compat; exact Hc).
  set (r := Rmin (PI / 2) (/ c)).
  assert (Hr0 : 0 < r) by (unfold r; apply Rmin_glb_lt; lra).
  assert (Hr1 : r <= PI / 2) by apply Rmin_l.
  assert (Hrc : r <= / c) by apply Rmin_r.
  exists (PI - r). split; [lra | ].
  unfold W1_curve.
  rewrite sin_PI_x, cos_minus, cos_PI, sin_PI.
  assert (Hs0 : 0 < sin r) by (apply sin_gt_0; lra).
  assert (Hsr : sin r < r) by (apply sin_lt_x; lra).
  assert (Hc0 : 0 <= cos r) by (apply cos_ge_0; lra).
  set (B := PI - r + 2 * PI).
  assert (HB : 7 < B) by (unfold B; lra).
  set (u := / sin r).
  assert (Hu : 0 < u) by (apply Rinv_0_lt_compat; exact Hs0).
  assert (Hus : u * sin r = 1) by (unfold u; field; lra).
  assert (Hcu : c * sin r < 1).
  { assert (c * r <= 1).
    { apply Rmult_le_reg_r with (/ c); [exact Hic | ].
      rewrite Rmult_assoc, (Rmult_comm r), <- Rmult_assoc, Rinv_r by lra. lra. }
    nra. }
  assert (Hex : 1 <= exp (- (B * ((-1 * cos r + 0 * sin r) / sin r)))).
  { rewrite <- exp_0. 
    assert (Hnn : 0 <= - (B * ((-1 * cos r + 0 * sin r) / sin r))).
    { unfold Rdiv. fold u. assert (0 <= cos r * u) by nra. nra. }
    destruct Hnn as [Hnn | Hnn].
    - left. apply exp_increasing. exact Hnn.
    - rewrite <- Hnn. right. reflexivity. }
  set (ex := exp _) in *.
  unfold Rdiv. fold u.
  assert (Hcu' : c < u).
  { apply Rmult_lt_reg_r with (sin r); [exact Hs0 | ]. lra. }
  assert (1 * u <= B * ex * u).
  { apply Rmult_le_compat_r; [lra | nra]. }
  lra.
Qed.

Lemma W1_curve_onto z : z < 0 -> exists t, 0 < t < PI /\ W1_curve t = - z.
Proof.
  intros Hz.
  destruct (@W1_curve_small (- z)) as (t1 & Ht1 & Hlo); [lra | ].
  destruct (@W1_curve_large (- z)) as (t2 & Ht2 & Hhi); [lra | ].
  assert (Hpi := PI2_1).
  destruct (IVT_interv (fun t => W1_curve t - (- z)) t1 t2) as (t & Ht & Hroot).
  - intros a Ha.
    apply (continuity_pt_minus W1_curve (fct_cte (- z))).
    + apply W1_curve_continuous. lra.
    + apply continuity_pt_const. intros x y. reflexivity.
  - lra.
  - lra.
  - lra.
  - exists t. split; [lra | lra].
Qed.

(** Branch 1 has a value at every negative real argument. *)
Lemma is_lambertw_1_exists z : z < 0 -> exists a, is_lambertw 1 z a.
Proof.
  intros Hz.
  destruct (W1_curve_onto Hz) as (t & Ht & Hcurve).
  assert (Hs : 0 < sin t) by (apply sin_gt_0; lra).
  set (b := t + 2 * PI).
  assert (Hsb : sin b = sin t).
  { unfold b. rewrite <- (sin_period t 1). f_equal. simpl. ring. }
  assert (Hcb : cos b = cos t).
  { unfold b. rewrite <- (cos_period t 1). f_equal. simpl. ring. }
  exists (- (b * (cos t / sin t))), b.
  split; [ | split].
  - simpl. unfold b. lra.
  - rewrite Hsb, Hcb.
    assert (Hsc := sin2_cos2 t). unfold Rsqr in Hsc.
    replace (- (b * (cos t / sin t)) * cos t - b * sin t)
      with (- (b / sin t)).
    + unfold W1_curve in Hcurve. fold b in Hcurve.
      unfold Rdiv in *. lra.
    + replace (b * sin t) with (b * (sin t * sin t) / sin t) by (field; lra).
      replace (sin t * sin t) with (1 - cos t * cos t) by lra.
      field. lra.
  - rewrite Hsb, Hcb.
    replace (- (b * (cos t / sin t)) * sin t + b * cos t) with 0 by (field; lra).
    ring.
Qed.

Lemma real_lambertw_1_spec z : z < 0 -> is_lambertw 1 z (real_lambertw z 1).
Proof.
  intros Hz. unfold real_lambertw.
  apply epsilon_spec, is_lambertw_1_exists, Hz.
Qed.

(** The modulus of [w * e^w]: whatever the branch,
    [z^2 = (e^a)^2 * (a^2 + b^2)]. *)
Lemma lambertw_modulus z a b :
  exp a * (a * cos b - b * sin b) = z ->
  exp a * (a * sin b + b * cos b) = 0 ->
  z * z = (exp a * exp a) * (a * a + b * b).
Proof.
  intros Hre Him.
  assert (Hsc := sin2_cos2 b). unfold Rsqr in Hsc.
  assert (Hexp := exp_pos a).
  assert (Him' : a * sin b + b * cos b = 0).
  { apply Rmult_integral in Him. destruct Him; lra. }
  rewrite <- Hre.
  replace (a * a + b * b)
    with ((a * cos b - b * sin b) * (a * cos b - b * sin b)
          + (a * sin b + b * cos b) * (a * sin b + b * cos b)).
  - rewrite Him'. ring.
  - transitivity ((a * a + b * b) * (sin b * sin b + cos b * cos b)).
    + ring.
    + rewrite Hsc. ring.
Qed.

(** On branch 1 the imaginary part exceeds [2 PI], so [e^a] is small. *)
Lemma is_lambertw_1_bound z a :
  z < 0 -> is_lambertw 1 z a -> 2 * PI * exp a < - z.
Proof.
  intros Hz (b & Hb & Hre & Him).
  simpl in Hb.
  assert (Hmod := lambertw_modulus Hre Him).
  assert (Hexp := exp_pos a).
  assert (Hpi := PI_RGT_0).
  assert (Hb2 : 2 * PI < b) by lra.
  destruct (Rlt_le_dec (2 * PI * exp a) (- z)) as [H | H]; [exact H | exfalso].
  assert (H1 : z * z <= (2 * PI * exp a) * (2 * PI * exp a)) by nra.
  assert (H2 : (2 * PI) * (2 * PI) < b * b) by nra.
  assert (H3 : 0 < exp a * exp a) by nra.
  assert (H4 : (exp a * exp a) * ((2 * PI) * (2 * PI))
               < (exp a * exp a) * (a * a + b * b)).
  { apply Rmult_lt_compat_l; [exact H3 | nra]. }
  lra.
Qed.

Lemma real_lambertw_1_bound z :
  z < 0 -> 2 * PI * exp (real_lambertw z 1) < - z.
Proof.
  intros Hz. apply is_lambertw_1_bound; [exact Hz | ].
  apply real_lambertw_1_spec, Hz.
Qed.

Lemma exp_13_lower : 8192 <= exp 13.
Proof.
  assert (H1 : 2 <= exp 1) by (assert (H := exp_ineq1_le 1); lra).
  assert (H2 : 4 <= exp (1 + 1)) by (rewrite exp_plus; nra).
  assert (H4 : 16 <= exp ((1 + 1) + (1 + 1))) by (rewrite exp_plus; nra).
  assert (H8 : 256 <= exp (((1 + 1) + (1 + 1)) + ((1 + 1) + (1 + 1))))
    by (rewrite exp_plus; nra).
  replace 13
    with (((((1 + 1) + (1 + 1)) + ((1 + 1) + (1 + 1))) + ((1 + 1) + (1 + 1))) + 1)
    by lra.
  rewrite (exp_plus _ 1), (exp_plus _ ((1 + 1) + (1 + 1))).
  set (e8 := exp (((1 + 1) + (1 + 1)) + ((1 + 1) + (1 + 1)))) in *.
  set (e4 := exp ((1 + 1) + (1 + 1))) in *.
  set (e1 := exp 1) in *.
  assert (H12 : 4096 <= e8 * e4) by nra.
  nra.
Qed.

(** On branch 1 the imaginary part stays below [3 PI], so the real part
    is bounded below as long as [z] stays away from 0. *)
Lemma is_lambertw_1_lower z a :
  z <= - (1 / 256) -> is_lambertw 1 z a -> - 13 < a.
Proof.
  intros Hz (b & Hb & Hre & Him).
  simpl in Hb.
  assert (Hmod := lambertw_modulus Hre Him).
  assert (Hpi := PI_RGT_0). assert (Hpi4 := PI_4).
  assert (Hb0 : 0 < b) by lra.
  assert (Hb12 : b < 12) by lra.
  destruct (Rlt_le_dec (- 13) a) as [H | H]; [exact H | exfalso].
  set (ex := exp (- a)).
  assert (Hex : exp a * ex = 1).
  { unfold ex. rewrite <- exp_plus. replace (a + - a) with 0 by ring.
    apply exp_0. }
  assert (Hm2 : (ex * ex) * (z * z) = a * a + b * b).
  { rewrite Hmod.
    transitivity ((exp a * ex) * (exp a * ex) * (a * a + b * b)); [ring | ].
    rewrite Hex. ring. }
  assert (Hlow : 8192 * (- a - 12) <= ex).
  { unfold ex. replace (- a) with (13 + (- a - 13)) at 2 by ring.
    rewrite exp_plus.
    assert (H13 := exp_13_lower).
    assert (Ht : 1 + (- a - 13) <= exp (- a - 13)) by apply exp_ineq1_le.
    assert (H0 : 0 <= 1 + (- a - 13)) by lra.
    transitivity (8192 * (1 + (- a - 13))); [lra | ].
    apply Rmult_le_compat; lra. }
  assert (Hsq : (8192 * (- a - 12)) * (8192 * (- a - 12)) <= ex * ex).
  { apply Rmult_le_compat; lra. }
  assert (Hzz : 1 / 65536 <= z * z) by nra.
  assert (Hbb : b * b < 144) by nra.
  assert (Hexx : 0 <= ex * ex) by nra.
  assert (Hprod : (ex * ex) * (1 / 65536) <= (ex * ex) * (z * z)).
  { apply Rmult_le_compat_l; assumption. }
  assert (Hfin : 1024 * ((- a - 12) * (- a - 12)) < a * a + 144) by lra.
  clear - H Hfin. nra.
Qed.

Lemma real_lambertw_1_lower z :
  z <= - (1 / 256) -> - 13 < real_lambertw z 1.
Proof.
  intros Hz. apply (@is_lambertw_1_lower z); [exact Hz | ].
  apply real_lambertw_1_spec. lra.
Qed.

Lemma Wm1_curve_continuous w : continuity_pt Wm1_curve w.
Proof.
  unfold Wm1_curve.
  apply (continuity_pt_mult id exp).
  - apply derivable_continuous_pt, derivable_pt_id.
  - apply derivable_continuous_pt, derivable_pt_exp.
Qed.

Lemma exp_2_lower x : 0 <= x -> x * x <= 4 * exp x.
Proof.
  intros Hx.
  replace x with (x / 2 + x / 2) at 3 by field.
  rewrite exp_plus.
  assert (H := exp_ineq1_le (x / 2)).
  assert (H1 : 0 <= 1 + x / 2) by lra.
  assert (H2 : (1 + x / 2) * (1 + x / 2) <= exp (x / 2) * exp (x / 2)).
  { apply Rmult_le_compat; lra. }
  nra.
Qed.

(** Branch -1 has a real value at every argument in [[-1/e, 0)]. *)
Lemma is_lambertw_m1_exists z :
  - exp (-1) <= z < 0 -> exists a, is_lambertw (-1) z a.
Proof.
  intros [Hlo Hz].
  assert (Hreal : forall w, w <= -1 -> Wm1_curve w = z -> is_lambertw (-1) z w).
  { intros w Hw Hcurve. exists 0. split; [ | split].
    - simpl. left. split; [reflexivity | exact Hw].
    - rewrite cos_0, sin_0. unfold Wm1_curve in Hcurve. lra.
    - rewrite cos_0, sin_0. ring. }
  destruct Hlo as [Hlo | Hlo].
  2:{ exists (-1). apply Hreal; [lra | ]. unfold Wm1_curve. lra. }
  set (c := - z). assert (Hc : 0 < c) by (unfold c; lra).
  assert (Hic : 0 < / c) by (apply Rinv_0_lt_compat; exact Hc).
  set (x := 1 + 4 * / c).
  assert (Hx : 1 < x) by (unfold x; lra).
  assert (Hxc : 4 < x * c).
  { unfold x. rewrite Rmult_plus_distr_r, Rmult_assoc, Rinv_l by lra. lra. }
  assert (Hsmall : x * exp (- x) < c).
  { assert (H := @exp_2_lower x ltac:(lra)).
    assert (He := exp_pos x).
    rewrite exp_Ropp.
    apply Rmult_lt_reg_r with (exp x); [exact He | ].
    rewrite Rmult_assoc, Rinv_l by lra.
    assert (x * x < x * (c * exp x)); [ | nra].
    assert (4 * exp x < x * c * exp x) by (apply Rmult_lt_compat_r; lra).
    lra. }
  destruct (IVT_interv (fun w => z - Wm1_curve w) (- x) (-1)) as (w & Hw & Hroot).
  - intros a _.
    apply (continuity_pt_minus (fct_cte z) Wm1_curve).
    + apply continuity_pt_const. intros u v. reflexivity.
    + apply Wm1_curve_continuous.
  - lra.
  - unfold Wm1_curve. unfold c in Hsmall. lra.
  - unfold Wm1_curve. lra.
  - exists w. apply Hreal; lra.
Qed.

Lemma real_lambertw_m1_spec z :
  - exp (-1) <= z < 0 -> is_lambertw (-1) z (real_lambertw z (-1)).
Proof.
  intros Hz. unfold real_lambertw.
  apply epsilon_spec, is_lambertw_m1_exists, Hz.
Qed.

(** The real parts on branch 1 and on branch -1 never agree: the moduli
    of the two solutions would be equal, and the imaginary parts are not. *)
Lemma branches_differ z a a' :
  z < 0 -> is_lambertw 1 z a -> is_lambertw (-1) z a' -> a <> a'.
Proof.
  intros Hz (b & Hb & Hre & Him) (b' & Hb' & Hre' & Him') Heq.
  subst a'. simpl in Hb, Hb'.
  assert (Hmod := lambertw_modulus Hre Him).
  assert (Hmod' := lambertw_modulus Hre' Him').
  assert (Hexp := exp_pos a).
  assert (Hpi := PI_RGT_0).
  assert (HE : 0 < exp a * exp a) by nra.
  assert (Hbb : b * b = b' * b').
  { assert (H : (exp a * exp a) * (b * b) = (exp a * exp a) * (b' * b')) by lra.
    apply Rmult_eq_reg_l in H; lra. }
  assert (Hbig : (2 * PI) * (2 * PI) < b * b) by nra.
  assert (Hsmall : b' * b' < PI * PI).
  { destruct Hb' as [[Hb0 _] | Hb']; [subst b'; nra | nra]. }
  nra.
Qed.

Lemma real_lambertw_branches_differ z :
  - exp (-1) <= z < 0 -> real_lambertw z 1 <> real_lambertw z (-1).
Proof.
  intros Hz.
  apply (@branches_differ z); [lra | | ].
  - apply real_lambertw_1_spec. lra.
  - apply real_lambertw_m1_spec, Hz.
Qed.

Lemma x_cos_lt_sin x : 0 < x < PI -> x * cos x < sin x.
Proof.
  intros [H0 Hpi].
  assert (Hs : 0 < sin x) by (apply sin_gt_0; lra).
  destruct (Rle_lt_dec (PI / 2) x) as [Hbig | Hsmall].
  - assert (Hc : cos x <= 0) by (apply cos_le_0; lra). nra.
  - assert (HS := sin_bound x 0 ltac:(lra) ltac:(lra)).
    assert (HC := cos_bound x 0 ltac:(lra) ltac:(lra)).
    destruct HS as [HS _]. destruct HC as [_ HC].
    unfold sin_approx, sin_term in HS. unfold cos_approx, cos_term in HC.
    simpl in HS, HC.
    assert (Hx2 : x * x < 4).
    { assert (Hp := PI_4). nra. }
    assert (Hsl : x - x * x * x / 6 <= sin x) by lra.
    assert (Hcu : cos x <= 1 - x * x / 2 + x * x * x * x / 24) by lra.
    assert (Hxc : x * cos x <= x * (1 - x * x / 2 + x * x * x * x / 24)).
    { apply Rmult_le_compat_l; lra. }
    assert (H3 : 0 < x * x * x) by (apply Rmult_lt_0_compat; nra).
    assert (H4 : x * x * x * (x * x) < x * x * x * 4).
    { apply Rmult_lt_compat_l; lra. }
    lra.
Qed.

(** On [[-1/e, 0)] branch -1 is the real solution [w <= -1] of
    [w * e^w = z]: a solution with imaginary part in (-PI, 0) has a modulus
    above [1/e]. *)
Lemma is_lambertw_m1_real z a :
  - exp (-1) <= z < 0 -> is_lambertw (-1) z a -> a <= -1 /\ a * exp a = z.
Proof.
  intros [Hlo Hz] (b & Hb & Hre & Him). simpl in Hb.
  assert (Hexp := exp_pos a).
  destruct Hb as [[Hb0 Ha] | Hb].
  - subst b. rewrite cos_0, sin_0 in Hre. split; [exact Ha | lra].
  - exfalso.
    assert (Hpi := PI_RGT_0).
    assert (Hsin : sin b < 0) by (apply sin_lt_0_var; lra).
    assert (Hx := @x_cos_lt_sin (- b) ltac:(lra)).
    rewrite cos_neg, sin_neg in Hx.
    assert (Hsb : sin (- b) < - b) by (apply sin_lt_x; lra).
    rewrite sin_neg in Hsb.
    assert (Him' : a * sin b + b * cos b = 0).
    { apply Rmult_integral in Him. destruct Him; lra. }
    assert (Ha : -1 < a) by nra.
    assert (Hsc := sin2_cos2 b). unfold Rsqr in Hsc.
    assert (Hzs : z * sin b = - (b * exp a)).
    { rewrite <- Hre.
      transitivity (exp a * ((a * sin b) * cos b - b * (sin b * sin b))); [ring | ].
      replace (a * sin b) with (- (b * cos b)) by lra.
      replace (sin b * sin b) with (1 - cos b * cos b) by lra. ring. }
    assert (Hlt : exp a < - z).
    { assert (H1 : z * sin b < z * b) by nra.
      assert (H2 : (- b) * exp a < (- b) * (- z)) by lra.
      apply Rmult_lt_reg_l in H2; lra. }
    assert (Hlt' : exp a < exp (-1)) by lra.
    apply exp_lt_inv in Hlt'. lra.
Qed.

(** On branch 1 the real part is never a real solution of [w * e^w = z]. *)
Lemma is_lambertw_1_not_real_root z a :
  z < 0 -> is_lambertw 1 z a -> a * exp a <> z.
Proof.
  intros Hz (b & Hb & Hre & Him) Hroot. simpl in Hb.
  assert (Hmod := lambertw_modulus Hre Him).
  assert (Hexp := exp_pos a).
  assert (Hpi := PI_RGT_0).
  assert (HE : 0 < exp a * exp a) by nra.
  assert (Hb2 : 0 < b * b) by nra.
  assert (H : (exp a * exp a) * (a * a + b * b) = (exp a * exp a) * (a * a)).
  { rewrite <- Hmod, <- Hroot. ring. }
  apply Rmult_eq_reg_l in H; lra.
Qed.

End LambertW.

(** ** The calibrator *)

Section Calibrator.

Import Config Spec.
Local Open Scope R_scope.

Lemma exp_half_bounds : 1 < exp (1 / 2) <= 2.
Proof.
  split.
  - assert (H := exp_ineq1 (1 / 2)). lra.
  - assert (H : exp (1 / 2) * exp (1 / 2) <= 3).
    { rewrite <- exp_plus. replace (1 / 2 + 1 / 2) with 1 by field.
      exact exp_le_3. }
    assert (H0 := exp_pos (1 / 2)).
    destruct (Rle_lt_dec (exp (1 / 2)) 2) as [Hle | Hgt]; [exact Hle | nra].
Qed.

Lemma ln_inv_pos rho : 0 < rho < 1 -> 0 < ln (1 / rho).
Proof.
  intros [H0 H1]. rewrite <- ln_1. apply ln_increasing; [lra | ].
  apply Rmult_lt_reg_r with rho; [exact H0 | ].
  unfold Rdiv. rewrite Rmult_assoc, Rinv_l by lra. lra.
Qed.

(** [rho] in the branch without [m]: positive and far below [gamma]. *)
Lemma rho_of_gamma g :
  0 < g < 1 ->
  let rho := exp (SciPy.real_lambertw (- g / (2 * exp (1 / 2))) 1 + 1 / 2) in
  0 < rho /\ 12 * rho < g.
Proof.
  intros Hg rho.
  assert (HE := exp_half_bounds).
  assert (Hpi := PI2_3_2).
  set (z := - g / (2 * exp (1 / 2))) in *.
  assert (HzE : z * (2 * exp (1 / 2)) = - g) by (unfold z; field; lra).
  assert (Hz : z < 0) by nra.
  assert (Hb := real_lambertw_1_bound Hz).
  split; [apply exp_pos | ].
  unfold rho. rewrite exp_plus.
  set (ea := exp (SciPy.real_lambertw z 1)) in *.
  assert (Hea : 0 < ea) by apply exp_pos.
  assert (H1 : 2 * PI * ea * (2 * exp (1 / 2)) < g).
  { assert (2 * PI * ea * (2 * exp (1 / 2)) < - z * (2 * exp (1 / 2))).
    { apply Rmult_lt_compat_r; lra. }
    lra. }
  assert (H2 : 12 * (ea * exp (1 / 2)) <= 2 * PI * ea * (2 * exp (1 / 2))).
  { assert (0 <= ea * exp (1 / 2)) by nra. nra. }
  lra.
Qed.

(** [rho] in the branch with [m]: inside (0,1). *)
Lemma rho_of_m mz :
  (1 <= mz)%Z ->
  let rho := exp (SciPy.real_lambertw (- 1 / (4 * IZR mz)) 1 / 2) in
  0 < rho /\ 24 * (rho * rho) < 1.
Proof.
  intros Hm rho.
  assert (Hm' : 1 <= IZR mz) by (apply IZR_le in Hm; exact Hm).
  assert (Hpi := PI2_3_2).
  set (z := - 1 / (4 * IZR mz)) in *.
  assert (Hzm : z * (4 * IZR mz) = - 1) by (unfold z; field; lra).
  assert (Hz : z < 0) by nra.
  assert (Hz1 : - z <= 1 / 4) by nra.
  assert (Hb := real_lambertw_1_bound Hz).
  split; [apply exp_pos | ].
  unfold rho. rewrite <- exp_plus.
  replace (SciPy.real_lambertw z 1 / 2 + SciPy.real_lambertw z 1 / 2)
    with (SciPy.real_lambertw z 1) by field.
  set (ea := exp (SciPy.real_lambertw z 1)) in *.
  assert (Hea : 0 < ea) by apply exp_pos.
  nra.
Qed.

(** The order-statistic index for a given floor [glo]. *)
Lemma k_of_floor (m : Z) (g glo : R) :
  (1 <= m)%Z -> 0 < glo -> g < 1 ->
  let k := NumPy.ceil (IZR m * (1 - g + glo)) in
  1 <= k /\ (k <= IZR m <-> glo <= g).
Proof.
  intros Hm Hglo Hg k.
  assert (Hm' : 1 <= IZR m) by (apply IZR_le in Hm; exact Hm).
  split.
  - apply ceil_pos. nra.
  - split.
    + intros Hk.
      destruct (Rle_lt_dec glo g) as [Hle | Hgt]; [exact Hle | exfalso].
      assert (IZR m < IZR m * (1 - g + glo)) by nra.
      assert (H1 := ceil_gt_IZR _ H). fold k in H1. lra.
    + intros Hle. apply ceil_le_IZR. nra.
Qed.

(** The branch without [m]: the sample size is at least one and the
    floor it achieves does not exceed [gamma]. *)
Lemma m_of_gamma (rho g : R) :
  0 < rho < 1 -> rho < g ->
  let m' := NumPy.ceil (ln (1 / rho) / (2 * (g - rho) ^ 2)) in
  let glo := rho + sqrt (ln (1 / rho) / (2 * m')) in
  1 <= m' /\ rho <= glo <= g.
Proof.
  intros Hrho Hg m' glo.
  assert (HL := ln_inv_pos Hrho).
  set (L := ln (1 / rho)) in *.
  set (d := g - rho) in *.
  assert (Hd : 0 < d) by (unfold d; lra).
  assert (Hd2 : 0 < 2 * d ^ 2) by (simpl; nra).
  set (q := L / (2 * d ^ 2)) in *.
  assert (Hq : 0 < q).
  { unfold q. apply Rdiv_lt_0_compat; assumption. }
  assert (Hm1 : 1 <= m') by (apply ceil_pos; exact Hq).
  assert (Hqm : q <= m') by apply ceil_upper.
  split; [exact Hm1 | ].
  assert (Hr : L / (2 * m') <= d * d).
  { assert (HqL : q * (2 * d ^ 2) = L) by (unfold q; field; simpl; nra).
    apply Rmult_le_reg_r with (2 * m'); [lra | ].
    unfold Rdiv. rewrite Rmult_assoc, Rinv_l by lra.
    simpl in HqL. nra. }
  assert (Hs0 := sqrt_pos (L / (2 * m'))).
  assert (Hs : sqrt (L / (2 * m')) <= d).
  { rewrite <- (sqrt_square d) by lra. apply sqrt_le_1_alt. exact Hr. }
  unfold glo. unfold d in Hs. lra.
Qed.

(** With [m = 2] the floor exceeds one half whatever [rho] in (0,1) is. *)
Lemma floor_above_half rho :
  0 < rho < 1 -> 1 / 2 < rho + sqrt (ln (1 / rho) / (2 * 2)).
Proof.
  intros Hrho.
  assert (HL : 1 - rho <= ln (1 / rho)).
  { unfold Rdiv. rewrite Rmult_1_l, ln_Rinv by lra.
    assert (H := exp_ineq1_le (ln rho)). rewrite exp_ln in H by lra. lra. }
  set (L := ln (1 / rho)) in *.
  destruct (Rle_lt_dec (1 / 2) rho) as [Hbig | Hsmall].
  - assert (H : 0 < sqrt (L / (2 * 2))) by (apply sqrt_lt_R0; lra). lra.
  - assert (H : sqrt ((1 / 2 - rho) * (1 / 2 - rho)) < sqrt (L / (2 * 2))).
    { apply sqrt_lt_1_alt. split; [nra | ].
      assert (H : (1 / 2 - rho) * (1 / 2 - rho) < (1 - rho) / 4) by nra.
      lra. }
    rewrite sqrt_square in H by lra. lra.
Qed.

(** With [m = 64] the floor of the code is below one half. *)
Lemma floor_below_half :
  let rho := exp (SciPy.real_lambertw (- 1 / (4 * IZR 64)) 1 / 2) in
  rho + sqrt (ln (1 / rho) / (2 * IZR 64)) < 1 / 2.
Proof.
  intros rho.
  destruct (@rho_of_m 64%Z ltac:(lia)) as [Hrho0 Hrho]. fold rho in Hrho0, Hrho.
  assert (Hrho4 : rho < 1 / 4).
  { destruct (Rlt_le_dec rho (1 / 4)) as [H | H]; [exact H | exfalso; nra]. }
  assert (HL0 := @ln_inv_pos rho ltac:(lra)).
  assert (Hz : - 1 / (4 * IZR 64) <= - (1 / 256)) by lra.
  assert (Ha := real_lambertw_1_lower Hz).
  assert (HL : ln (1 / rho) = - (SciPy.real_lambertw (- 1 / (4 * IZR 64)) 1 / 2)).
  { unfold Rdiv at 1. rewrite Rmult_1_l, ln_Rinv by exact Hrho0.
    unfold rho. rewrite ln_exp. reflexivity. }
  set (L := ln (1 / rho)) in *.
  assert (HL8 : L < 8) by lra.
  assert (H : sqrt (L / (2 * IZR 64)) < sqrt ((1 / 4) * (1 / 4))).
  { apply sqrt_lt_1_alt. split; lra. }
  rewrite sqrt_square in H by lra. lra.
Qed.

(** What the calibrator returns on a valid input. *)
Lemma config_valid (E : Type) (m : option Z) (gamma : option R) :
  valid_input m gamma ->
  exists c,
    @_sensitivity_sampler_config E m gamma = Ok c /\
    0 < cfg_rho c < 1 /\
    (1 <= NumPy.int (cfg_m c))%Z /\
    (1 <= NumPy.int (cfg_k c))%Z /\
    cfg_m c = IZR (NumPy.int (cfg_m c)) /\
    cfg_k c = IZR (NumPy.int (cfg_k c)) /\
    (cfg_k c <= cfg_m c <-> gamma_lo c <= cfg_gamma c) /\
    (m = None \/ gamma = None -> cfg_k c <= cfg_m c) /\
    match m with Some mz => cfg_m c = IZR mz | None => True end /\
    match gamma with Some g => cfg_gamma c = g | None => True end.
Proof.
  intros (Hm & Hg & Hone).
  destruct m as [mz | ]; [ | destruct gamma as [g | ]].
  - (* [m] supplied *)
    set (rho := exp (SciPy.real_lambertw (- 1 / (4 * IZR mz)) 1 / 2)).
    set (glo := rho + sqrt (ln (1 / rho) / (2 * IZR mz))).
    destruct (rho_of_m Hm) as [Hrho0 Hrho]. fold rho in Hrho0, Hrho.
    assert (Hrho1 : rho < 1) by nra.
    assert (Hglo : 0 < glo).
    { unfold glo. assert (H := sqrt_pos (ln (1 / rho) / (2 * IZR mz))). lra. }
    assert (Hz : (mz =? 0)%Z = false) by (apply Z.eqb_neq; lia).
    assert (Hm' : 1 <= IZR mz) by (apply IZR_le in Hm; exact Hm).
    destruct gamma as [g | ].
    + destruct (@k_of_floor mz g glo Hm Hglo ltac:(lra)) as [Hk1 Hkm].
      exists (mkConfig (IZR mz) g (NumPy.ceil (IZR mz * (1 - g + glo))) rho).
      unfold _sensitivity_sampler_config. rewrite Hz.
      split; [reflexivity | ].
      unfold gamma_lo. simpl. fold rho. fold glo.
      rewrite int_IZR, int_ceil.
      repeat split; try lra; try lia; try tauto.
      * apply le_IZR. exact Hk1.
      * intros [H | H]; discriminate H.
    + exists (mkConfig (IZR mz) glo (IZR mz) rho).
      unfold _sensitivity_sampler_config. rewrite Hz.
      split; [reflexivity | ].
      unfold gamma_lo. simpl. fold rho. fold glo.
      rewrite int_IZR.
      repeat split; try lra; try lia.
  - (* only [gamma] supplied *)
    set (rho := exp (SciPy.real_lambertw (- g / (2 * exp (1 / 2))) 1 + 1 / 2)).
    set (q := ln (1 / rho) / (2 * (g - rho) ^ 2)).
    set (m' := NumPy.ceil q).
    set (glo := rho + sqrt (ln (1 / rho) / (2 * m'))).
    destruct (rho_of_gamma Hg) as [Hrho0 Hrho]. fold rho in Hrho0, Hrho.
    assert (Hrho1 : 0 < rho < 1) by lra.
    destruct (@m_of_gamma rho g Hrho1 ltac:(lra)) as [Hm1 Hglo].
    fold q in Hm1, Hglo. fold m' in Hm1, Hglo. fold glo in Hglo.
    assert (HmZ : (1 <= Zceil q)%Z) by (apply le_IZR; exact Hm1).
    destruct (@k_of_floor (Zceil q) g glo HmZ ltac:(lra) ltac:(lra)) as [Hk1 Hkm].
    change (IZR (Zceil q)) with m' in Hk1, Hkm.
    exists (mkConfig m' g (NumPy.ceil (m' * (1 - g + glo))) rho).
    split; [reflexivity | ].
    unfold gamma_lo. simpl. fold rho. fold q. fold m'. fold glo.
    assert (Hint : NumPy.int m' = Zceil q) by apply int_ceil.
    rewrite Hint, int_ceil.
    repeat split; try lra; try lia; try tauto; try reflexivity.
    + apply le_IZR. exact Hk1.
  - exfalso. destruct Hone as [H | H]; apply H; reflexivity.
Qed.

End Calibrator.

(** ** Sorting, indexing and the mean of a sample array *)

Section Arrays.

Import NumPy.
Local Open Scope R_scope.

Lemma insert_finite (x : R) (l : list R) :
  Sorted Rle l ->
  exists l', insert (Finite x) (map Finite l) = map Finite l' /\
             Permutation l' (x :: l) /\ Sorted Rle l'.
Proof.
  induction l as [ | y l IH]; intros Hsorted.
  - exists [x]. simpl. repeat split; auto.
  - simpl. destruct (Rle_dec x y) as [Hxy | Hxy].
    + exists (x :: y :: l). repeat split; auto.
    + inversion Hsorted as [ | ? ? Htail Hhd]; subst.
      destruct (IH Htail) as (l' & Heq & Hperm & Hs').
      exists (y :: l'). rewrite Heq. split; [reflexivity | split].
      * rewrite Hperm. apply perm_swap.
      * constructor; [exact Hs' | ].
        assert (Hyx : y <= x) by lra.
        assert (Hall : Forall (Rle y) (x :: l)).
        { constructor; [exact Hyx | ].
          apply Sorted_extends in Hsorted; [exact Hsorted | ].
          intros a b c. apply Rle_trans. }
        assert (Hall' : Forall (Rle y) l').
        { rewrite Forall_forall in *. intros z Hz. apply Hall.
          apply (Permutation_in _ Hperm Hz). }
        destruct l'; constructor. inversion Hall'; assumption.
Qed.

(** [np.sort] of an array of finite samples: an ascending permutation. *)
Lemma sort_finite (vs : list R) :
  exists sorted, sort (map Finite vs) = map Finite sorted /\
                 Permutation sorted vs /\ Sorted Rle sorted.
Proof.
  induction vs as [ | v vs (sorted & Heq & Hperm & Hs)].
  - exists []. repeat split; auto.
  - destruct (insert_finite v Hs) as (l' & Heq' & Hperm' & Hs').
    exists l'. unfold sort in *. simpl. rewrite Heq, Heq'.
    repeat split; auto.
    rewrite Hperm'. constructor. exact Hperm.
Qed.

Lemma sum_finite (vs : list R) : sum (map Finite vs) = Finite (Rsum vs).
Proof.
  induction vs as [ | v vs IH]; [reflexivity | ].
  unfold sum in *. simpl. rewrite IH. reflexivity.
Qed.

Lemma Rsum_perm (l l' : list R) : Permutation l l' -> Rsum l = Rsum l'.
Proof.
  induction 1; unfold Rsum in *; simpl; lra.
Qed.

Lemma mean_sorted (vs sorted : list R) :
  Permutation sorted vs ->
  mean (map Finite sorted) = Finite (Rsum vs / INR (length vs)).
Proof.
  intros Hperm. unfold mean. rewrite sum_finite, length_map. simpl.
  rewrite (Rsum_perm Hperm), (Permutation_length Hperm). reflexivity.
Qed.

Lemma getitem_in_range (E A : Type) (a : list A) (i : Z) (x : A) :
  (0 <= i)%Z ->
  @getitem E A a i = Ok x -> nth_error a (Z.to_nat i) = Some x.
Proof.
  intros Hi. unfold getitem.
  destruct (i <? 0)%Z eqn:Hneg; [apply Z.ltb_lt in Hneg; lia | ].
  destruct ((0 <=? i)%Z && (i <? Z.of_nat (length a))%Z)%bool; [ | discriminate].
  destruct (nth_error a (Z.to_nat i)); [ | discriminate].
  intros H. inversion H. reflexivity.
Qed.

Lemma getitem_Ok_range (E A : Type) (a : list A) (i : Z) (x : A) :
  @getitem E A a i = Ok x ->
  (- Z.of_nat (length a) <= i < Z.of_nat (length a))%Z.
Proof.
  unfold getitem.
  destruct (i <? 0)%Z eqn:Hneg.
  - apply Z.ltb_lt in Hneg.
    destruct ((0 <=? Z.of_nat (length a) + i)%Z &&
              (Z.of_nat (length a) + i <? Z.of_nat (length a))%Z)%bool eqn:Hr;
      [ | discriminate].
    apply andb_true_iff in Hr. destruct Hr as [H1 H2].
    apply Z.leb_le in H1. lia.
  - apply Z.ltb_ge in Hneg.
    destruct ((0 <=? i)%Z && (i <? Z.of_nat (length a))%Z)%bool eqn:Hr;
      [ | discriminate].
    apply andb_true_iff in Hr. destruct Hr as [H1 H2].
    apply Z.ltb_lt in H2. lia.
Qed.

Lemma getitem_beyond (E A : Type) (a : list A) (i : Z) :
  (Z.of_nat (length a) <= i)%Z -> @getitem E A a i = Raise IndexError.
Proof.
  intros Hi. unfold getitem.
  destruct (i <? 0)%Z eqn:Hneg; [apply Z.ltb_lt in Hneg; lia | ].
  destruct (0 <=? i)%Z; simpl; [ | reflexivity].
  destruct (i <? Z.of_nat (length a))%Z eqn:Hlt; [ | reflexivity].
  apply Z.ltb_lt in Hlt. lia.
Qed.

Lemma getitem_inside (E A : Type) (a : list A) (i : Z) :
  (0 <= i < Z.of_nat (length a))%Z ->
  exists x, @getitem E A a i = Ok x /\ nth_error a (Z.to_nat i) = Some x.
Proof.
  intros Hi. unfold getitem.
  destruct (i <? 0)%Z eqn:Hneg; [apply Z.ltb_lt in Hneg; lia | ].
  replace (0 <=? i)%Z with true by (symmetry; apply Z.leb_le; lia).
  replace (i <? Z.of_nat (length a))%Z with true by (symmetry; apply Z.ltb_lt; lia).
  simpl.
  destruct (nth_error a (Z.to_nat i)) as [x | ] eqn:Hnth.
  - exists x. split; reflexivity.
  - apply nth_error_None in Hnth. lia.
Qed.

Lemma setitem_middle (pre post : list float) (x v : float) :
  setitem (pre ++ x :: post) (length pre) v = pre ++ v :: post.
Proof.
  induction pre as [ | p pre IH]; simpl; [reflexivity | ].
  rewrite IH. reflexivity.
Qed.

End Arrays.

(** ** The sampling loop *)

Section Loop.

Import NumPy Config Sampler.
Local Open Scope R_scope.

Variables Rec Val St E : Type.
Variable C : collaborators Rec Val St E.

Lemma trials_length (n : Z) (todo : nat) (s s' : St) (vs : list R) :
  trials C n todo s = (Ok vs, s') -> length vs = todo.
Proof.
  revert s s' vs. induction todo as [ | todo IH]; intros s s' vs H; simpl in H.
  - inversion H. reflexivity.
  - unfold bind in H.
    destruct (trial C n s) as [[v | e] s1]; [ | discriminate].
    destruct (trials C n todo s1) as [[vs' | e] s2] eqn:Hrest; [ | discriminate].
    inversion H; subst. simpl. f_equal. apply (IH _ _ _ Hrest).
Qed.

(** The loop writes the samples of the trials into the slots [i],
    [i+1], ... of the array, and stops at the first trial that raises. *)
Lemma loop_trials (n : Z) (todo : nat) :
  forall (i : nat) (pre mid post : list float) (s : St),
    length pre = i -> length mid = todo ->
    loop C n i todo (pre ++ mid ++ post) s =
    match trials C n todo s with
    | (Ok vs, s') => (Ok (pre ++ map Finite vs ++ post), s')
    | (Raise e, s') => (Raise e, s')
    end.
Proof.
  induction todo as [ | todo IH]; intros i pre mid post s Hpre Hmid.
  - destruct mid; [ | discriminate]. reflexivity.
  - destruct mid as [ | x mid]; [discriminate | ].
    simpl. unfold bind.
    destruct (trial C n s) as [[v | e] s1]; [ | reflexivity].
    rewrite <- Hpre, setitem_middle.
    replace (pre ++ Finite v :: mid ++ post)
      with ((pre ++ [Finite v]) ++ mid ++ post)
      by (rewrite <- app_assoc; reflexivity).
    rewrite (IH (S (length pre)) (pre ++ [Finite v]) mid post s1).
    + destruct (trials C n todo s1) as [[vs | e] s2]; [ | reflexivity].
      simpl. rewrite <- app_assoc. reflexivity.
    + rewrite length_app. simpl. lia.
    + simpl in Hmid. lia.
Qed.

(** [_sensitivity_sampler] in terms of the samples of its trials. *)
Lemma sampler_run (n m k : Z) (s : St) :
  _sensitivity_sampler C n m k s =
  if (m <? 0)%Z then (Raise ValueError, s)
  else
    match trials C n (Z.to_nat m) s with
    | (Ok vs, s') =>
        (match getitem (sort (map Finite vs)) (k - 1) with
         | Ok x => Ok (x, mean (sort (map Finite vs)))
         | Raise e => Raise e
         end, s')
    | (Raise e, s') => (Raise e, s')
    end.
Proof.
  unfold _sensitivity_sampler.
  destruct (m <? 0)%Z; [reflexivity | ].
  unfold bind at 1.
  assert (Hloop := @loop_trials n (Z.to_nat m) 0 [] (full_inf (Z.to_nat m)) [] s
                     eq_refl (repeat_length Inf (Z.to_nat m))).
  simpl in Hloop. rewrite app_nil_r in Hloop. rewrite Hloop.
  destruct (trials C n (Z.to_nat m) s) as [[vs | e] s']; [ | reflexivity].
  rewrite app_nil_r. unfold bind, lift, ret.
  destruct (getitem (sort (map Finite vs)) (k - 1)); reflexivity.
Qed.

(** Whatever a trial raises is what one of the three objects raised,
    unchanged, and the state is the one that call left. *)
Lemma trial_raises (n : Z) (s s' : St) (e : exn E) :
  trial C n s = (Raise e, s') ->
  exists e0, e = Collaborator e0 /\
    ((exists size st, oracle_sample C size st = (inl e0, s')) \/
     (exists db st, query_get C db st = (inl e0, s')) \/
     (exists v1 v2 st, norm_compute C v1 v2 st = (inl e0, s'))).
Proof.
  unfold trial, sample_databases, _sensitivity_norm, bind, call, ret.
  destruct (oracle_sample C (n - 1) s) as [[e1 | l] s1] eqn:H1.
  { intros H; inversion H; subst. eauto 7. }
  destruct (oracle_sample C 1 s1) as [[e2 | l1] s2] eqn:H2.
  { intros H; inversion H; subst. eauto 7. }
  destruct (oracle_sample C 1 s2) as [[e3 | l2] s3] eqn:H3.
  { intros H; inversion H; subst. eauto 7. }
  simpl.
  destruct (query_get C (l ++ l1) s3) as [[e4 | v1] s4] eqn:H4.
  { intros H; inversion H; subst. eauto 7. }
  destruct (query_get C (l ++ l2) s4) as [[e5 | v2] s5] eqn:H5.
  { intros H; inversion H; subst. eauto 7. }
  destruct (norm_compute C v1 v2 s5) as [[e6 | x] s6] eqn:H6.
  { intros H; inversion H; subst. eauto 9. }
  discriminate.
Qed.

End Loop.

(** ** One trial of the loop *)

Section Trial.

Import NumPy Config Sampler.
Local Open Scope R_scope.

Variables Rec Val St E : Type.
Variable C : collaborators Rec Val St E.

(** Trial [i] runs from the state the first [i] trials leave behind. *)
Lemma trials_snoc (n : Z) (i : nat) :
  forall (s0 s s' : St) (done : list R) (v : R),
    trials C n i s0 = (Ok done, s) ->
    trial C n s = (Ok v, s') ->
    trials C n (S i) s0 = (Ok (done ++ [v]), s').
Proof.
  induction i as [ | i IH]; intros s0 s s' done v Hdone Hv.
  - simpl in Hdone. inversion Hdone; subst.
    simpl. unfold bind. rewrite Hv. reflexivity.
  - simpl in Hdone. unfold bind in Hdone.
    destruct (trial C n s0) as [[v0 | e] s1] eqn:H0; [ | discriminate].
    destruct (trials C n i s1) as [[vs | e] s2] eqn:Hrest; [ | discriminate].
    inversion Hdone; subst.
    assert (Hnext := IH _ _ _ _ _ Hrest Hv).
    change (trials C n (S (S i)) s0)
      with (bind (trial C n)
              (fun v1 => bind (trials C n (S i)) (fun vs1 => ret (v1 :: vs1))) s0).
    unfold bind at 1. rewrite H0. unfold bind. rewrite Hnext. reflexivity.
Qed.

Lemma trials_app (n : Z) (a : nat) :
  forall (b : nat) (s0 s1 s2 : St) (xs ys : list R),
    trials C n a s0 = (Ok xs, s1) ->
    trials C n b s1 = (Ok ys, s2) ->
    trials C n (a + b) s0 = (Ok (xs ++ ys), s2).
Proof.
  induction a as [ | a IH]; intros b s0 s1 s2 xs ys Ha Hb.
  - simpl in Ha. inversion Ha; subst. exact Hb.
  - simpl in Ha. unfold bind in Ha.
    destruct (trial C n s0) as [[v0 | e] s0'] eqn:H0; [ | discriminate].
    destruct (trials C n a s0') as [[vs | e] s0''] eqn:Hrest; [ | discriminate].
    inversion Ha; subst.
    change (trials C n (S a + b) s0)
      with (bind (trial C n)
              (fun v1 => bind (trials C n (a + b)) (fun vs1 => ret (v1 :: vs1))) s0).
    unfold bind at 1. rewrite H0. unfold bind.
    rewrite (IH b s0' s1 s2 vs ys Hrest Hb). reflexivity.
Qed.

(** The first [a] iterations of the loop, then the remaining [b]. *)
Lemma loop_app (n : Z) (a : nat) :
  forall (b i : nat) (gs : list float) (s : St),
    loop C n i (a + b) gs s =
    match loop C n i a gs s with
    | (Ok gs', s1) => loop C n (i + a) b gs' s1
    | (Raise e, s1) => (Raise e, s1)
    end.
Proof.
  induction a as [ | a IH]; intros b i gs s.
  - simpl. rewrite Nat.add_0_r. reflexivity.
  - change (loop C n i (S a + b) gs s)
      with (bind (trial C n)
              (fun v => loop C n (S i) (a + b) (setitem gs i (Finite v))) s).
    change (loop C n i (S a) gs s)
      with (bind (trial C n)
              (fun v => loop C n (S i) a (setitem gs i (Finite v))) s).
    unfold bind. destruct (trial C n s) as [[v | e] s1]; [ | reflexivity].
    rewrite IH. replace (S i + a)%nat with (i + S a)%nat by lia. reflexivity.
Qed.

(** C3.  In trial [i] of the loop (the one that starts in the state [s]
    left by the first [i] trials) the sampler asks the oracle for [n-1]
    records, then for one record, then for one more; the two databases are
    the [n-1] shared records followed by the first, respectively the second,
    extra record, so both have [n] records and agree outside the last one;
    the sample of the trial is [norm.compute(query.get(D1), query.get(D2))].
    The loop of [_sensitivity_sampler], started on the array of [np.inf] in
    the caller's state, reaches its iteration [i + 1] in the state this
    trial leaves, with the samples of the trials [0 .. i] in the slots
    [0 .. i]; and when the later trials complete, the sample of trial [i] is
    entry [i] of the array that [_sensitivity_sampler] sorts.
    The oracle is assumed to return as many records as it is asked for. *)
Theorem trial_samples_neighbouring_pair
  (n : Z) (i : nat) (s0 s s' : St) (done : list R) (v : R) :
  (forall size st l st',
      (0 <= size)%Z -> oracle_sample C size st = (inr l, st') ->
      length l = Z.to_nat size) ->
  (1 <= n)%Z ->
  trials C n i s0 = (Ok done, s) ->
  trial C n s = (Ok v, s') ->
  exists (shared : list Rec) (r1 r2 : Rec) (s1 s2 s3 s4 s5 : St) (v1 v2 : Val),
    oracle_sample C (n - 1) s = (inr shared, s1) /\
    oracle_sample C 1 s1 = (inr [r1], s2) /\
    oracle_sample C 1 s2 = (inr [r2], s3) /\
    sample_databases C n s = (Ok (shared ++ [r1], shared ++ [r2]), s3) /\
    length shared = Z.to_nat (n - 1) /\
    length (shared ++ [r1]) = Z.to_nat n /\
    length (shared ++ [r2]) = Z.to_nat n /\
    query_get C (shared ++ [r1]) s3 = (inr v1, s4) /\
    query_get C (shared ++ [r2]) s4 = (inr v2, s5) /\
    norm_compute C v1 v2 s5 = (inr v, s') /\
    trials C n (S i) s0 = (Ok (done ++ [v]), s') /\
    length done = i /\
    (forall rest : nat,
        loop C n 0 (S i + rest) (full_inf (S i + rest)) s0
        = loop C n (S i) rest (map Finite (done ++ [v]) ++ full_inf rest) s') /\
    (forall (rest : nat) (k : Z) (later : list R) (s_end : St),
        trials C n rest s' = (Ok later, s_end) ->
        nth_error (done ++ v :: later) i = Some v /\
        loop C n 0 (S i + rest) (full_inf (S i + rest)) s0
        = (Ok (map Finite (done ++ v :: later)), s_end) /\
        _sensitivity_sampler C n (Z.of_nat (S i + rest)) k s0
        = (match getitem (sort (map Finite (done ++ v :: later))) (k - 1) with
           | Ok x => Ok (x, mean (sort (map Finite (done ++ v :: later))))
           | Raise e => Raise e
           end, s_end)).
Proof.
  intros Hsize Hn Hdone Hv.
  assert (Hsnoc := @trials_snoc n i s0 s s' done v Hdone Hv).
  assert (Hlen := trials_length _ _ _ _ Hdone).
  assert (Hloop : forall rest : nat,
             loop C n 0 (S i + rest) (full_inf (S i + rest)) s0
             = loop C n (S i) rest (map Finite (done ++ [v]) ++ full_inf rest) s').
  { intros rest. rewrite loop_app.
    unfold full_inf. rewrite repeat_app.
    assert (H := @loop_trials _ _ _ _ C n (S i) 0 []
                   (repeat Inf (S i)) (repeat Inf rest) s0
                   eq_refl (repeat_length Inf (S i))).
    rewrite Hsnoc in H.
    change ([] ++ repeat Inf (S i) ++ repeat Inf rest)
      with (repeat Inf (S i) ++ repeat Inf rest) in H.
    rewrite H. reflexivity. }
  assert (Hrest : forall (rest : nat) (k : Z) (later : list R) (s_end : St),
             trials C n rest s' = (Ok later, s_end) ->
             nth_error (done ++ v :: later) i = Some v /\
             loop C n 0 (S i + rest) (full_inf (S i + rest)) s0
             = (Ok (map Finite (done ++ v :: later)), s_end) /\
             _sensitivity_sampler C n (Z.of_nat (S i + rest)) k s0
             = (match getitem (sort (map Finite (done ++ v :: later))) (k - 1) with
                | Ok x => Ok (x, mean (sort (map Finite (done ++ v :: later))))
                | Raise e => Raise e
                end, s_end)).
  { intros rest k later s_end Hlater.
    assert (Hall := @trials_app n (S i) rest s0 s' s_end (done ++ [v]) later
                      Hsnoc Hlater).
    rewrite <- app_assoc in Hall. change ([v] ++ later) with (v :: later) in Hall.
    split; [ | split].
    - rewrite nth_error_app2 by lia. rewrite Hlen, Nat.sub_diag. reflexivity.
    - assert (H := @loop_trials _ _ _ _ C n (S i + rest) 0 []
                     (full_inf (S i + rest)) [] s0
                     eq_refl (repeat_length Inf (S i + rest))).
      rewrite Hall, !app_nil_r in H. exact H.
    - rewrite sampler_run.
      replace (Z.of_nat (S i + rest) <? 0)%Z with false
        by (symmetry; apply Z.ltb_ge; lia).
      rewrite Nat2Z.id, Hall. reflexivity. }
  unfold trial, sample_databases, _sensitivity_norm, bind, call, ret in Hv.
  destruct (oracle_sample C (n - 1) s) as [[e | shared] s1] eqn:H1;
    [discriminate | ].
  destruct (oracle_sample C 1 s1) as [[e | new1] s2] eqn:H2; [discriminate | ].
  destruct (oracle_sample C 1 s2) as [[e | new2] s3] eqn:H3; [discriminate | ].
  simpl in Hv.
  destruct (query_get C (shared ++ new1) s3) as [[e | v1] s4] eqn:H4;
    [discriminate | ].
  destruct (query_get C (shared ++ new2) s4) as [[e | v2] s5] eqn:H5;
    [discriminate | ].
  destruct (norm_compute C v1 v2 s5) as [[e | v'] s6] eqn:H6; [discriminate | ].
  inversion Hv; subst v' s6.
  assert (L1 := Hsize (n - 1)%Z s shared s1 ltac:(lia) H1).
  assert (L2 := Hsize 1%Z s1 new1 s2 ltac:(lia) H2).
  assert (L3 := Hsize 1%Z s2 new2 s3 ltac:(lia) H3).
  destruct new1 as [ | r1 [ | ? ?]]; try discriminate L2.
  destruct new2 as [ | r2 [ | ? ?]]; try discriminate L3.
  exists shared, r1, r2, s1, s2, s3, s4, s5, v1, v2.
  split; [first [assumption | reflexivity] | ].
  split; [first [assumption | reflexivity] | ].
  split; [first [assumption | reflexivity] | ].
  split.
  { unfold sample_databases, bind, call, ret. rewrite H1, H2, H3. reflexivity. }
  split; [exact L1 | ].
  split; [rewrite length_app, L1; simpl; lia | ].
  split; [rewrite length_app, L1; simpl; lia | ].
  split; [first [assumption | reflexivity] | ].
  split; [first [assumption | reflexivity] | ].
  split; [first [assumption | reflexivity] | ].
  split; [exact Hsnoc | ]. split; [exact Hlen | ].
  split; [exact Hloop | exact Hrest].
Qed.

End Trial.

(** ** The whole operation *)

Section Operation.

Import NumPy Config Sampler Spec.
Local Open Scope R_scope.

Variables Rec Val St E : Type.
Variable C : collaborators Rec Val St E.

Lemma sample_sensitivity_with_config
  (n : Z) (m : option Z) (gamma : option R) (c : config) (s : St) :
  @_sensitivity_sampler_config E m gamma = Ok c ->
  sample_sensitivity C n m gamma s =
  _sensitivity_sampler C n (int (cfg_m c)) (int (cfg_k c)) s.
Proof.
  intros Hc. unfold sample_sensitivity, bind, lift. rewrite Hc. reflexivity.
Qed.

Lemma sample_sensitivity_m_only (n mz : Z) (s : St) :
  mz <> 0%Z ->
  sample_sensitivity C n (Some mz) None s = _sensitivity_sampler C n mz mz s.
Proof.
  intros Hm. unfold sample_sensitivity, bind, lift, _sensitivity_sampler_config.
  replace (mz =? 0)%Z with false by (symmetry; apply Z.eqb_neq; exact Hm).
  simpl. rewrite int_IZR. reflexivity.
Qed.

(** A trial that raises ends the loop: later trials do not run. *)
Lemma trials_abort (n : Z) (i : nat) :
  forall (todo : nat) (s s1 s2 : St) (done : list R) (e : exn E),
    trials C n i s = (Ok done, s1) ->
    trial C n s1 = (Raise e, s2) ->
    (i < todo)%nat ->
    trials C n todo s = (Raise e, s2).
Proof.
  induction i as [ | i IH]; intros todo s s1 s2 done e Hdone Hraise Hlt.
  - simpl in Hdone. inversion Hdone; subst.
    destruct todo as [ | todo]; [lia | ].
    simpl. unfold bind. rewrite Hraise. reflexivity.
  - destruct todo as [ | todo]; [lia | ].
    simpl in Hdone. unfold bind in Hdone.
    destruct (trial C n s) as [[v0 | e0] s0] eqn:H0; [ | discriminate].
    destruct (trials C n i s0) as [[vs | e0] s0'] eqn:Hrest; [ | discriminate].
    inversion Hdone; subst.
    simpl. unfold bind. rewrite H0.
    rewrite (IH todo s0 s1 s2 vs e Hrest Hraise ltac:(lia)). reflexivity.
Qed.


(** With [k] in range the sampler returns the order statistic and the
    mean of the samples its trials produced. *)
Lemma sampler_returns (n m k : Z) (s s' : St) (vs : list R) :
  (1 <= k <= m)%Z ->
  trials C n (Z.to_nat m) s = (Ok vs, s') ->
  exists sorted x,
    Permutation sorted vs /\ Sorted Rle sorted /\
    nth_error sorted (Z.to_nat (k - 1)) = Some x /\
    _sensitivity_sampler C n m k s =
    (Ok (Finite x, Finite (Rsum vs / INR (length vs))), s').
Proof.
  intros Hk Hvs.
  assert (Hlen := trials_length _ _ _ _ Hvs).
  destruct (sort_finite vs) as (sorted & Hsort & Hperm & Hsorted).
  assert (Hlen' : length sorted = Z.to_nat m).
  { rewrite (Permutation_length Hperm). exact Hlen. }
  destruct (@getitem_inside E _ (map Finite sorted) (k - 1)) as (y & Hget & Hnth).
  { rewrite length_map, Hlen'. lia. }
  rewrite nth_error_map in Hnth.
  destruct (nth_error sorted (Z.to_nat (k - 1))) as [x | ] eqn:Hx; [ | discriminate].
  simpl in Hnth. inversion Hnth; subst y.
  exists sorted, x. repeat split; try assumption.
  rewrite sampler_run.
  replace (m <? 0)%Z with false by (symmetry; apply Z.ltb_ge; lia).
  rewrite Hvs, Hsort, Hget, (mean_sorted Hperm). reflexivity.
Qed.

(** With [k] beyond the array the sampler raises [IndexError] once the
    trials are done. *)
Lemma sampler_index_error (n m k : Z) (s s' : St) (vs : list R) :
  (0 <= m < k)%Z ->
  trials C n (Z.to_nat m) s = (Ok vs, s') ->
  _sensitivity_sampler C n m k s = (Raise IndexError, s').
Proof.
  intros Hk Hvs.
  assert (Hlen := trials_length _ _ _ _ Hvs).
  rewrite sampler_run.
  replace (m <? 0)%Z with false by (symmetry; apply Z.ltb_ge; lia).
  rewrite Hvs, getitem_beyond; [reflexivity | ].
  destruct (sort_finite vs) as (sorted & Hsort & Hperm & _).
  rewrite Hsort, length_map, (Permutation_length Hperm), Hlen. lia.
Qed.




End Operation.

(** ** What [sample_sensitivity] returns and raises *)

Section OperationClaims.

Import NumPy Config Sampler Spec.
Local Open Scope R_scope.

Variables Rec Val St E : Type.
Variable C : collaborators Rec Val St E.

(** C2.  On a valid input, a call of [sample_sensitivity] that returns
    [(sensitivity, mean)] has run [m] trials; [sensitivity] is the entry at
    index [k-1] of the ascending arrangement of their [m] samples, with
    [1 <= k <= m], and [mean] is the sum of the samples divided by [m]. *)
Theorem sample_sensitivity_returns_order_statistic_and_mean
  (n : Z) (m : option Z) (gamma : option R) (s s' : St) (sensitivity mean : float) :
  valid_input m gamma ->
  sample_sensitivity C n m gamma s = (Ok (sensitivity, mean), s') ->
  exists (c : config) (samples sorted : list R) (x : R),
    @_sensitivity_sampler_config E m gamma = Ok c /\
    trials C n (Z.to_nat (int (cfg_m c))) s = (Ok samples, s') /\
    length samples = Z.to_nat (int (cfg_m c)) /\
    (1 <= int (cfg_k c) <= int (cfg_m c))%Z /\
    Permutation sorted samples /\ Sorted Rle sorted /\
    nth_error sorted (Z.to_nat (int (cfg_k c) - 1)) = Some x /\
    sensitivity = Finite x /\
    mean = Finite (Rsum samples / INR (Z.to_nat (int (cfg_m c)))).
Proof.
  intros Hvalid Hrun.
  destruct (config_valid E Hvalid) as (c & Hc & _ & Hm1 & Hk1 & _).
  rewrite (sample_sensitivity_with_config C n m gamma s Hc) in Hrun.
  assert (Hrun' := Hrun). rewrite sampler_run in Hrun'.
  replace (int (cfg_m c) <? 0)%Z with false in Hrun'
    by (symmetry; apply Z.ltb_ge; lia).
  destruct (trials C n (Z.to_nat (int (cfg_m c))) s) as [[vs | e] s1] eqn:Hvs;
    [ | discriminate].
  destruct (getitem (sort (map Finite vs)) (int (cfg_k c) - 1)) as [y | e] eqn:Hget;
    [ | discriminate].
  assert (Hs1 : s1 = s') by congruence. subst s1. clear Hrun'.
  assert (Hlen := trials_length _ _ _ _ Hvs).
  assert (Hrange := getitem_Ok_range _ _ Hget).
  destruct (sort_finite vs) as (sorted0 & Hsort & Hperm0 & _).
  rewrite Hsort, length_map, (Permutation_length Hperm0), Hlen in Hrange.
  assert (Hk : (1 <= int (cfg_k c) <= int (cfg_m c))%Z) by lia.
  destruct (sampler_returns C n s Hk Hvs) as (sorted & x & Hperm & Hsorted & Hx & Heq).
  rewrite Heq in Hrun. inversion Hrun; subst.
  exists c, vs, sorted, x. rewrite Hlen.
  repeat split; try assumption; try reflexivity; try lia.
Qed.

(** C5, as the code has it.  On a valid input the computed [k] is at
    least 1.  When it exceeds [m], the call returns no estimate: the trials
    run first and, if none of them raises, the access [gs[k - 1]] raises
    [IndexError]; [k] is not clamped. *)
Theorem k_beyond_m_raises_IndexError
  (n : Z) (m : option Z) (gamma : option R) (c : config) (s : St) :
  valid_input m gamma ->
  @_sensitivity_sampler_config E m gamma = Ok c ->
  (int (cfg_m c) < int (cfg_k c))%Z ->
  (1 <= int (cfg_k c))%Z /\
  (forall est s', sample_sensitivity C n m gamma s <> (Ok est, s')) /\
  (forall samples s1,
      trials C n (Z.to_nat (int (cfg_m c))) s = (Ok samples, s1) ->
      sample_sensitivity C n m gamma s = (Raise IndexError, s1)).
Proof.
  intros Hvalid Hc Hk.
  destruct (config_valid E Hvalid) as (c' & Hc' & _ & Hm1 & Hk1 & _).
  rewrite Hc in Hc'. inversion Hc'; subst c'.
  rewrite (sample_sensitivity_with_config C n m gamma s Hc).
  assert (Hmk : (0 <= int (cfg_m c) < int (cfg_k c))%Z) by lia.
  split; [exact Hk1 | split].
  - intros est s' Hrun.
    destruct (trials C n (Z.to_nat (int (cfg_m c))) s) as [[vs | e] s1] eqn:Hvs.
    + rewrite (sampler_index_error C n s Hmk Hvs) in Hrun. discriminate.
    + rewrite sampler_run, Hvs in Hrun.
      destruct (int (cfg_m c) <? 0)%Z; discriminate.
  - intros vs s1 Hvs. apply (sampler_index_error C n s Hmk Hvs).
Qed.

(** C6, as the code has it.  With both [m] and [gamma] absent the call
    raises [TypeError] (the negation of [None]) before anything is asked of
    the collaborators. *)
Theorem both_absent_raises_TypeError (n : Z) (s : St) :
  @_sensitivity_sampler_config E None None = Raise TypeError /\
  sample_sensitivity C n None None s = (Raise TypeError, s).
Proof. split; reflexivity. Qed.


(** C8, as the code has it.  If trial [i] raises, the call raises the
    very same exception: the one a collaborator raised, not wrapped and
    without the trial index; no later trial runs and no estimate is
    returned. *)
Theorem collaborator_error_propagates_unchanged
  (n : Z) (m : option Z) (gamma : option R) (c : config)
  (i : nat) (s s1 s2 : St) (done : list R) (e : exn E) :
  @_sensitivity_sampler_config E m gamma = Ok c ->
  (i < Z.to_nat (int (cfg_m c)))%nat ->
  trials C n i s = (Ok done, s1) ->
  trial C n s1 = (Raise e, s2) ->
  sample_sensitivity C n m gamma s = (Raise e, s2) /\
  exists e0, e = Collaborator e0 /\
    ((exists size st, oracle_sample C size st = (inl e0, s2)) \/
     (exists db st, query_get C db st = (inl e0, s2)) \/
     (exists v1 v2 st, norm_compute C v1 v2 st = (inl e0, s2))).
Proof.
  intros Hc Hi Hdone Hraise.
  split; [ | apply (trial_raises C n s1 Hraise)].
  rewrite (sample_sensitivity_with_config C n m gamma s Hc), sampler_run.
  replace (int (cfg_m c) <? 0)%Z with false by (symmetry; apply Z.ltb_ge; lia).
  rewrite (@trials_abort _ _ _ _ C n i _ s s1 s2 done e Hdone Hraise Hi).
  reflexivity.
Qed.

End OperationClaims.

(** ** What the calibrator returns *)

Section CalibratorClaims.

Import NumPy Config Spec.
Local Open Scope R_scope.

Variable E : Type.

Lemma exp_minus_1_lower : 1 / 3 <= exp (-1).
Proof.
  replace (-1) with (Ropp 1) by lra. rewrite exp_Ropp.
  assert (H := exp_le_3). assert (H0 := exp_pos 1).
  unfold Rdiv. rewrite Rmult_1_l. apply Rinv_le_contravar; lra.
Qed.

(** The arguments the calibrator passes to the Lambert W function lie in
    [[-1/e, 0)], where the lower branch is real. *)
Lemma argument_of_gamma g :
  0 < g < 1 -> - exp (-1) <= - g / (2 * exp (1 / 2)) < 0.
Proof.
  intros Hg. assert (HE := exp_half_bounds).
  set (e2 := exp (1 / 2)) in *.
  assert (He1 : exp (-1) = / (e2 * e2)).
  { unfold e2. rewrite <- exp_plus, <- exp_Ropp. f_equal. lra. }
  set (z := - g / (2 * e2)).
  assert (Hz : z * (2 * e2) = - g) by (unfold z; field; lra).
  assert (Hinv : / (e2 * e2) * (e2 * e2) = 1) by (field; lra).
  rewrite He1. set (w := / (e2 * e2)) in *.
  assert (Hw : 0 < w) by (unfold w; apply Rinv_0_lt_compat; nra).
  split; [ | nra].
  (* [g * e2 <= 2], so [g / (2 e2) <= 1 / e2^2] *)
  assert (H1 : - z * (2 * e2) * e2 <= 2 * (w * (e2 * e2))) by nra.
  assert (H2 : (- z) * (2 * (e2 * e2)) <= w * (2 * (e2 * e2))) by nra.
  apply Rmult_le_reg_r in H2; [lra | nra].
Qed.

Lemma argument_of_m mz :
  (1 <= mz)%Z -> - exp (-1) <= - 1 / (4 * IZR mz) < 0.
Proof.
  intros Hm. assert (Hm' : 1 <= IZR mz) by (apply IZR_le in Hm; exact Hm).
  assert (He := exp_minus_1_lower).
  set (z := - 1 / (4 * IZR mz)).
  assert (Hz : z * (4 * IZR mz) = - 1) by (unfold z; field; lra).
  split; nra.
Qed.

(** The code is the algorithm of the specification with branch 1 in the
    place of the lower branch. *)
Lemma config_is_algorithm_on_branch_1 (m : option Z) (gamma : option R) :
  valid_input m gamma ->
  exists c,
    @_sensitivity_sampler_config E m gamma = Ok c /\
    calibrate_with (fun z => SciPy.real_lambertw z 1) m gamma = Some c.
Proof.
  intros (Hm & Hg & Hone).
  unfold _sensitivity_sampler_config, calibrate_with.
  destruct m as [mz | ]; [ | destruct gamma as [g | ]].
  - replace (mz =? 0)%Z with false by (symmetry; apply Z.eqb_neq; lia).
    destruct gamma; eexists; split; reflexivity.
  - eexists; split; reflexivity.
  - exfalso. destruct Hone as [H | H]; apply H; reflexivity.
Qed.

(** On every valid input the [rho] of the code differs from the [rho] of
    the specification's algorithm. *)
Lemma rho_differs_from_lower_branch (m : option Z) (gamma : option R) :
  valid_input m gamma ->
  exists c c',
    @_sensitivity_sampler_config E m gamma = Ok c /\
    calibrate m gamma = Some c' /\
    cfg_rho c <> cfg_rho c'.
Proof.
  intros (Hm & Hg & Hone).
  unfold _sensitivity_sampler_config, calibrate, calibrate_with.
  destruct m as [mz | ]; [ | destruct gamma as [g | ]].
  - replace (mz =? 0)%Z with false by (symmetry; apply Z.eqb_neq; lia).
    assert (Hd := real_lambertw_branches_differ (argument_of_m Hm)).
    destruct gamma; eexists; eexists; (split; [reflexivity | split; [reflexivity | ]]);
      simpl; intros Heq; apply exp_inv in Heq; lra.
  - assert (Hd := real_lambertw_branches_differ (argument_of_gamma Hg)).
    eexists; eexists; (split; [reflexivity | split; [reflexivity | ]]).
    simpl; intros Heq; apply exp_inv in Heq; lra.
  - exfalso. destruct Hone as [H | H]; apply H; reflexivity.
Qed.

(** The closed forms of [rho] invert the conditions under which [rho] is
    optimal: [8 m rho^2 ln(1/rho) = 1] (the floor
    [rho + sqrt(ln(1/rho) / (2 m))] is stationary in [rho]) when [m] is
    given, and [rho (1 - 2 ln rho) = gamma] (the sample size
    [ln(1/rho) / (2 (gamma - rho)^2)] is stationary in [rho]) when [gamma] is
    given.  They do so on the lower branch and not on branch 1. *)
Lemma rho_condition_of_m (mz : Z) (w : R) :
  (1 <= mz)%Z ->
  let rho := exp (w / 2) in
  8 * IZR mz * (rho * rho) * ln (1 / rho) = 1 <->
  w * exp w = - 1 / (4 * IZR mz).
Proof.
  intros Hm rho.
  assert (Hm' : 1 <= IZR mz) by (apply IZR_le in Hm; exact Hm).
  assert (Hrr : rho * rho = exp w).
  { unfold rho. rewrite <- exp_plus. f_equal. field. }
  assert (Hln : ln (1 / rho) = - (w / 2)).
  { unfold rho, Rdiv. rewrite Rmult_1_l, ln_Rinv by apply exp_pos.
    rewrite ln_exp. reflexivity. }
  rewrite Hrr, Hln.
  set (z := - 1 / (4 * IZR mz)).
  assert (Hz : z * (4 * IZR mz) = - 1) by (unfold z; field; lra).
  split; intros H.
  - apply Rmult_eq_reg_r with (4 * IZR mz); [ | lra]. rewrite Hz. lra.
  - assert (H' : w * exp w * (4 * IZR mz) = - 1) by (rewrite H; exact Hz). lra.
Qed.

Lemma rho_condition_of_gamma (g w : R) :
  let rho := exp (w + 1 / 2) in
  rho * (1 - 2 * ln rho) = g <->
  w * exp w = - g / (2 * exp (1 / 2)).
Proof.
  intros rho.
  assert (HE := exp_half_bounds).
  assert (Hrho : rho = exp w * exp (1 / 2)) by (unfold rho; apply exp_plus).
  assert (Hln : ln rho = w + 1 / 2) by (unfold rho; apply ln_exp).
  rewrite Hln, Hrho.
  set (z := - g / (2 * exp (1 / 2))).
  assert (Hz : z * (2 * exp (1 / 2)) = - g) by (unfold z; field; lra).
  split; intros H.
  - apply Rmult_eq_reg_r with (2 * exp (1 / 2)); [ | lra]. rewrite Hz. lra.
  - assert (H' : w * exp w * (2 * exp (1 / 2)) = - g) by (rewrite H; exact Hz).
    lra.
Qed.

Lemma lower_branch_rho_is_optimal (m : option Z) (gamma : option R) (c' : config) :
  valid_input m gamma ->
  calibrate m gamma = Some c' ->
  match m, gamma with
  | Some mz, _ => 8 * IZR mz * (cfg_rho c' * cfg_rho c') * ln (1 / cfg_rho c') = 1
  | None, Some g => cfg_rho c' * (1 - 2 * ln (cfg_rho c')) = g
  | None, None => False
  end.
Proof.
  intros (Hm & Hg & Hone) Hc'.
  unfold calibrate, calibrate_with in Hc'.
  destruct m as [mz | ]; [ | destruct gamma as [g | ]].
  - assert (Hrho : cfg_rho c' = exp (SciPy.real_lambertw (- 1 / (4 * IZR mz)) (-1) / 2)).
    { destruct gamma; inversion Hc'; reflexivity. }
    rewrite Hrho. apply rho_condition_of_m; [exact Hm | ].
    apply is_lambertw_m1_real; [apply argument_of_m; exact Hm | ].
    apply real_lambertw_m1_spec, argument_of_m, Hm.
  - inversion Hc'. simpl. apply rho_condition_of_gamma.
    apply is_lambertw_m1_real; [apply argument_of_gamma; exact Hg | ].
    apply real_lambertw_m1_spec, argument_of_gamma, Hg.
  - discriminate.
Qed.

Lemma code_rho_is_not_optimal (m : option Z) (gamma : option R) (c : config) :
  valid_input m gamma ->
  @_sensitivity_sampler_config E m gamma = Ok c ->
  match m, gamma with
  | Some mz, _ => 8 * IZR mz * (cfg_rho c * cfg_rho c) * ln (1 / cfg_rho c) <> 1
  | None, Some g => cfg_rho c * (1 - 2 * ln (cfg_rho c)) <> g
  | None, None => False
  end.
Proof.
  intros (Hm & Hg & Hone) Hc.
  unfold _sensitivity_sampler_config in Hc.
  destruct m as [mz | ]; [ | destruct gamma as [g | ]].
  - replace (mz =? 0)%Z with false in Hc by (symmetry; apply Z.eqb_neq; lia).
    assert (Hrho : cfg_rho c = exp (SciPy.real_lambertw (- 1 / (4 * IZR mz)) 1 / 2)).
    { destruct gamma; inversion Hc; reflexivity. }
    rewrite Hrho. intros H. apply rho_condition_of_m in H; [ | exact Hm].
    revert H. apply is_lambertw_1_not_real_root.
    + apply (argument_of_m Hm).
    + apply real_lambertw_1_spec, (argument_of_m Hm).
  - inversion Hc. simpl. intros H. apply rho_condition_of_gamma in H.
    revert H. apply is_lambertw_1_not_real_root.
    + apply (argument_of_gamma Hg).
    + apply real_lambertw_1_spec, (argument_of_gamma Hg).
  - discriminate.
Qed.

(** C1.  At [m = 1] with [gamma] absent the code returns
    [rho = exp(Re W_1(-1/4) / 2)], computed on branch [1]; the algorithm of
    the specification gives [rho = exp(W_{-1}(-1/4) / 2)], on the lower
    branch.  The two numbers are different, and only the second one meets
    the condition [8 m rho^2 ln(1/rho) = 1] of an optimal [rho]. *)
Theorem calibrator_rho_is_not_on_lower_branch :
  exists c c',
    @_sensitivity_sampler_config E (Some 1%Z) None = Ok c /\
    calibrate (Some 1%Z) None = Some c' /\
    cfg_rho c = exp (SciPy.real_lambertw (- 1 / (4 * 1)) 1 / 2) /\
    cfg_rho c' = exp (SciPy.real_lambertw (- 1 / (4 * 1)) (-1) / 2) /\
    cfg_rho c <> cfg_rho c' /\
    8 * 1 * (cfg_rho c' * cfg_rho c') * ln (1 / cfg_rho c') = 1 /\
    8 * 1 * (cfg_rho c * cfg_rho c) * ln (1 / cfg_rho c) <> 1.
Proof.
  assert (Hvalid : valid_input (Some 1%Z) None).
  { repeat split; [lia | left; discriminate]. }
  destruct (rho_differs_from_lower_branch Hvalid) as (c & c' & Hc & Hc' & Hneq).
  exists c, c'. repeat split; try assumption.
  - unfold _sensitivity_sampler_config in Hc. simpl in Hc.
    inversion Hc. reflexivity.
  - unfold calibrate, calibrate_with in Hc'. inversion Hc'. reflexivity.
  - apply (lower_branch_rho_is_optimal Hvalid Hc').
  - apply (code_rho_is_not_optimal Hvalid Hc).
Qed.

(** C4, as the code has it.  On every valid input the calibrator returns
    [rho] in (0,1) and [k >= 1].  [k <= m] holds when one of [m] and [gamma]
    is absent; in general it holds exactly when the returned [gamma] is at
    least the floor [rho + sqrt(ln(1/rho) / (2 m))]. *)
Theorem calibrator_ranges (m : option Z) (gamma : option R) :
  valid_input m gamma ->
  exists c,
    @_sensitivity_sampler_config E m gamma = Ok c /\
    0 < cfg_rho c < 1 /\
    1 <= cfg_k c /\
    (m = None \/ gamma = None -> cfg_k c <= cfg_m c) /\
    (cfg_k c <= cfg_m c <-> gamma_lo c <= cfg_gamma c).
Proof.
  intros Hvalid.
  destruct (config_valid E Hvalid)
    as (c & Hc & Hrho & _ & Hk1 & _ & Hk & Hiff & Hone & _).
  exists c. repeat split; try tauto; try lra.
  rewrite Hk. apply IZR_le. exact Hk1.
Qed.

(** C9, as the code has it.  For a fixed supplied [m] and supplied
    confidence levels [gamma1 < gamma2] in (0,1), the index computed for
    [gamma2] is at most the one computed for [gamma1], and both are at
    least 1.  The floor [gamma_lo] is the same for both, and the index is
    at most [m] exactly when the requested level is at least the floor;
    so an index within [1, m] at [gamma1] is within [1, m] at [gamma2].
    Below the floor the index exceeds [m]. *)
Theorem k_stays_in_range_as_gamma_grows (mz : Z) (gamma1 gamma2 : R) :
  (1 <= mz)%Z -> 0 < gamma1 -> gamma1 < gamma2 -> gamma2 < 1 ->
  exists c1 c2,
    @_sensitivity_sampler_config E (Some mz) (Some gamma1) = Ok c1 /\
    @_sensitivity_sampler_config E (Some mz) (Some gamma2) = Ok c2 /\
    cfg_m c1 = IZR mz /\ cfg_m c2 = IZR mz /\
    cfg_k c1 = NumPy.ceil (IZR mz * (1 - gamma1 + gamma_lo c1)) /\
    cfg_k c2 = NumPy.ceil (IZR mz * (1 - gamma2 + gamma_lo c2)) /\
    gamma_lo c1 = gamma_lo c2 /\
    cfg_k c2 <= cfg_k c1 /\
    1 <= cfg_k c1 /\
    1 <= cfg_k c2 /\
    (cfg_k c1 <= cfg_m c1 <-> gamma_lo c1 <= gamma1) /\
    (cfg_k c2 <= cfg_m c2 <-> gamma_lo c2 <= gamma2) /\
    (1 <= cfg_k c1 <= cfg_m c1 -> 1 <= cfg_k c2 <= cfg_m c2).
Proof.
  intros Hm H0 H12 H1.
  assert (Hm' : 1 <= IZR mz) by (apply IZR_le in Hm; exact Hm).
  unfold _sensitivity_sampler_config.
  replace (mz =? 0)%Z with false by (symmetry; apply Z.eqb_neq; lia).
  set (rho := exp (SciPy.real_lambertw (- 1 / (4 * IZR mz)) 1 / 2)).
  set (glo := rho + sqrt (ln (1 / rho) / (2 * IZR mz))).
  assert (Hglo : 0 < glo).
  { unfold glo. assert (H := sqrt_pos (ln (1 / rho) / (2 * IZR mz))).
    assert (H' := exp_pos (SciPy.real_lambertw (- 1 / (4 * IZR mz)) 1 / 2)).
    fold rho in H'. lra. }
  eexists; eexists. split; [reflexivity | split; [reflexivity | ]].
  unfold gamma_lo. cbn [cfg_m cfg_k cfg_rho cfg_gamma]. fold rho. fold glo.
  assert (Hmono : NumPy.ceil (IZR mz * (1 - gamma2 + glo))
                  <= NumPy.ceil (IZR mz * (1 - gamma1 + glo))).
  { apply ceil_mono. nra. }
  destruct (@k_of_floor mz gamma1 glo Hm Hglo ltac:(lra)) as [Hk1 Hiff1].
  destruct (@k_of_floor mz gamma2 glo Hm Hglo ltac:(lra)) as [Hk2 Hiff2].
  cbv zeta in Hk1, Hiff1, Hk2, Hiff2.
  split; [reflexivity | split; [reflexivity | ]].
  split; [reflexivity | split; [reflexivity | ]].
  split; [reflexivity | split; [exact Hmono | ]].
  split; [exact Hk1 | split; [exact Hk2 | ]].
  split; [exact Hiff1 | split; [exact Hiff2 | ]].
  intros [_ Hin]. split; [exact Hk2 | lra].
Qed.

(** With [m = 1] the floor exceeds one tenth whatever [rho] in (0,1) is. *)
Lemma floor_above_tenth rho :
  0 < rho < 1 -> 1 / 10 < rho + sqrt (ln (1 / rho) / (2 * 1)).
Proof.
  intros Hrho.
  assert (HL : 1 - rho <= ln (1 / rho)).
  { unfold Rdiv. rewrite Rmult_1_l, ln_Rinv by lra.
    assert (H := exp_ineq1_le (ln rho)). rewrite exp_ln in H by lra. lra. }
  set (L := ln (1 / rho)) in *.
  destruct (Rle_lt_dec (1 / 10) rho) as [Hbig | Hsmall].
  - assert (H : 0 < sqrt (L / (2 * 1))) by (apply sqrt_lt_R0; lra). lra.
  - assert (H : sqrt ((1 / 10) * (1 / 10)) <= sqrt (L / (2 * 1))).
    { apply sqrt_le_1_alt. lra. }
    rewrite sqrt_square in H by lra. lra.
Qed.

(** A valid input with both arguments supplied for which [k] exceeds [m]. *)
Lemma config_one_tenth :
  exists c,
    @_sensitivity_sampler_config E (Some 1%Z) (Some (1 / 10)) = Ok c /\
    cfg_m c < cfg_k c /\
    (int (cfg_m c) < int (cfg_k c))%Z /\
    int (cfg_m c) = 1%Z.
Proof.
  assert (Hvalid : valid_input (Some 1%Z) (Some (1 / 10))).
  { repeat split; [lia | lra | lra | left; discriminate]. }
  destruct (config_valid E Hvalid)
    as (c & Hc & Hrho & _ & _ & Hm & Hk & Hiff & _ & Hm1 & Hg).
  exists c. split; [exact Hc | ].
  assert (Hfloor := floor_above_tenth Hrho).
  assert (Hlt : cfg_m c < cfg_k c).
  { destruct (Rlt_le_dec (cfg_m c) (cfg_k c)) as [H | H]; [exact H | exfalso].
    apply Hiff in H. unfold gamma_lo in H. rewrite Hm1, Hg in H. lra. }
  split; [exact Hlt | split].
  - apply lt_IZR. rewrite <- Hm, <- Hk. exact Hlt.
  - apply eq_IZR. rewrite <- Hm. exact Hm1.
Qed.

(** With [m = 2] the index exceeds [m] for every requested level up to
    one half. *)
Lemma config_two (g : R) :
  0 < g <= 1 / 2 ->
  exists c,
    @_sensitivity_sampler_config E (Some 2%Z) (Some g) = Ok c /\
    cfg_m c = IZR 2 /\ cfg_gamma c = g /\
    g < gamma_lo c /\ cfg_m c < cfg_k c.
Proof.
  intros Hg.
  assert (Hvalid : valid_input (Some 2%Z) (Some g)).
  { repeat split; [lia | lra | lra | left; discriminate]. }
  destruct (config_valid E Hvalid)
    as (c & Hc & Hrho & _ & _ & Hm & Hk & Hiff & _ & Hm1 & Hg').
  exists c. split; [exact Hc | split; [exact Hm1 | split; [exact Hg' | ]]].
  assert (Hfloor := floor_above_half Hrho).
  assert (Hlo : g < gamma_lo c).
  { unfold gamma_lo. rewrite Hm1. lra. }
  split; [exact Hlo | ].
  destruct (Rlt_le_dec (cfg_m c) (cfg_k c)) as [H | H]; [exact H | exfalso].
  apply Hiff in H. rewrite Hg' in H. lra.
Qed.

(** With [m = 64] the floor lies below one half. *)
Lemma config_sixty_four (g : R) (c : config) :
  @_sensitivity_sampler_config E (Some 64%Z) (Some g) = Ok c ->
  gamma_lo c < 1 / 2.
Proof.
  intros Hc. unfold _sensitivity_sampler_config in Hc.
  change (64 =? 0)%Z with false in Hc. cbv iota zeta in Hc.
  inversion Hc as [Heq]. unfold gamma_lo. cbn [cfg_rho cfg_m].
  apply floor_below_half.
Qed.

End CalibratorClaims.

(** ** Concrete runs *)

Section Runs.

Import NumPy Config Sampler Demo.
Local Open Scope R_scope.

Lemma tape_sample_length (size : Z) (st l st' : list Z) :
  (0 <= size)%Z -> tape_sample size st = (inr l, st') ->
  length l = Z.to_nat size.
Proof.
  intros Hsize. unfold tape_sample.
  destruct (size <? 0)%Z; [discriminate | ].
  destruct (Z.of_nat (length st) <? size)%Z eqn:Hlen; [discriminate | ].
  apply Z.ltb_ge in Hlen.
  intros H. inversion H; subst. apply firstn_length_le. lia.
Qed.

Lemma trial_samples_neighbouring_pair_witness :
  exists (shared : list Z) (r1 r2 : Z) (s1 s2 s3 s4 s5 : list Z) (v1 v2 : Z),
    oracle_sample tape_run (5 - 1) (skipn 6 tape) = (inr shared, s1) /\
    oracle_sample tape_run 1 s1 = (inr [r1], s2) /\
    oracle_sample tape_run 1 s2 = (inr [r2], s3) /\
    sample_databases tape_run 5 (skipn 6 tape)
      = (Ok (shared ++ [r1], shared ++ [r2]), s3) /\
    length shared = Z.to_nat (5 - 1) /\
    length (shared ++ [r1]) = Z.to_nat 5 /\
    length (shared ++ [r2]) = Z.to_nat 5 /\
    query_get tape_run (shared ++ [r1]) s3 = (inr v1, s4) /\
    query_get tape_run (shared ++ [r2]) s4 = (inr v2, s5) /\
    norm_compute tape_run v1 v2 s5 = (inr 0, skipn 12 tape) /\
    trials tape_run 5 2 tape = (Ok ([1] ++ [0]), skipn 12 tape) /\
    length [1] = 1%nat /\
    (forall rest : nat,
        loop tape_run 5 0 (2 + rest) (full_inf (2 + rest)) tape
        = loop tape_run 5 2 rest (map Finite ([1] ++ [0]) ++ full_inf rest)
            (skipn 12 tape)) /\
    (forall (rest : nat) (k : Z) (later : list R) (s_end : list Z),
        trials tape_run 5 rest (skipn 12 tape) = (Ok later, s_end) ->
        nth_error ([1] ++ 0 :: later) 1 = Some 0 /\
        loop tape_run 5 0 (2 + rest) (full_inf (2 + rest)) tape
        = (Ok (map Finite ([1] ++ 0 :: later)), s_end) /\
        _sensitivity_sampler tape_run 5 (Z.of_nat (2 + rest)) k tape
        = (match getitem (sort (map Finite ([1] ++ 0 :: later))) (k - 1) with
           | Ok x => Ok (x, mean (sort (map Finite ([1] ++ 0 :: later))))
           | Raise e => Raise e
           end, s_end)).
Proof.
  apply (@trial_samples_neighbouring_pair Z Z (list Z) tape_error tape_run
           5 1 tape (skipn 6 tape) (skipn 12 tape) [1] 0).
  - exact tape_sample_length.
  - lia.
  - reflexivity.
  - reflexivity.
Defined.

Lemma valid_m_only (mz : Z) : (1 <= mz)%Z -> Spec.valid_input (Some mz) None.
Proof. intros H. repeat split; [exact H | left; discriminate]. Qed.

Lemma tape_three_trials : trials tape_run 5 3 tape = (Ok [1; 0; 1], []).
Proof. reflexivity. Qed.

Lemma sort_three_samples :
  sort (map Finite [1; 0; 1]) = [Finite 0; Finite 1; Finite 1].
Proof.
  unfold sort. simpl.
  repeat (match goal with
          | |- context [Rle_dec ?a ?b] =>
              destruct (Rle_dec a b); try (exfalso; lra)
          end; simpl).
  reflexivity.
Qed.

(** The samples of the tape are 1, 0 and 1: sorted 0, 1, 1, mean 2/3. *)
Lemma tape_sampler_run (k : Z) :
  _sensitivity_sampler tape_run 5 3 k tape =
  (match getitem [Finite 0; Finite 1; Finite 1] (k - 1) with
   | Ok x => Ok (x, Finite (2 / 3))
   | Raise e => Raise e
   end, []).
Proof.
  rewrite sampler_run. change (3 <? 0)%Z with false. cbv iota.
  change (Z.to_nat 3) with 3%nat.
  rewrite tape_three_trials, sort_three_samples.
  replace (mean [Finite 0; Finite 1; Finite 1]) with (Finite (2 / 3)).
  - reflexivity.
  - unfold mean, div_count, sum. simpl. f_equal. field.
Qed.

(** The scenario of the specification: [n = 5], [m = 3], samples 1, 0, 1
    and [k = 2] give the sensitivity 1 and the mean 2/3. *)
Example sampler_scenario :
  _sensitivity_sampler tape_run 5 3 2 tape = (Ok (Finite 1, Finite (2 / 3)), []).
Proof. rewrite tape_sampler_run. reflexivity. Qed.

Lemma tape_run_m_3 :
  sample_sensitivity tape_run 5 (Some 3%Z) None tape
  = (Ok (Finite 1, Finite (2 / 3)), []).
Proof.
  rewrite sample_sensitivity_m_only by lia.
  rewrite tape_sampler_run. reflexivity.
Qed.

Lemma sample_sensitivity_returns_order_statistic_and_mean_witness :
  exists (c : config) (samples sorted : list R) (x : R),
    @_sensitivity_sampler_config tape_error (Some 3%Z) None = Ok c /\
    trials tape_run 5 (Z.to_nat (int (cfg_m c))) tape = (Ok samples, []) /\
    length samples = Z.to_nat (int (cfg_m c)) /\
    (1 <= int (cfg_k c) <= int (cfg_m c))%Z /\
    Permutation sorted samples /\ Sorted Rle sorted /\
    nth_error sorted (Z.to_nat (int (cfg_k c) - 1)) = Some x /\
    Finite 1 = Finite x /\
    Finite (2 / 3) = Finite (Rsum samples / INR (Z.to_nat (int (cfg_m c)))).
Proof.
  apply (@sample_sensitivity_returns_order_statistic_and_mean
           Z Z (list Z) tape_error tape_run 5 (Some 3%Z) None tape []
           (Finite 1) (Finite (2 / 3))).
  - apply valid_m_only. lia.
  - exact tape_run_m_3.
Defined.

Lemma calibrator_ranges_witness :
  exists c,
    @_sensitivity_sampler_config tape_error (Some 3%Z) None = Ok c /\
    0 < cfg_rho c < 1 /\
    1 <= cfg_k c /\
    (Some 3%Z = None \/ @None R = None -> cfg_k c <= cfg_m c) /\
    (cfg_k c <= cfg_m c <-> gamma_lo c <= cfg_gamma c).
Proof.
  apply (@calibrator_ranges tape_error (Some 3%Z) None).
  apply valid_m_only. lia.
Defined.

(** C4 fails where both arguments are supplied: [m = 1] and
    [gamma = 1/10] are valid and the computed [k] exceeds [m]. *)
Lemma calibrator_k_exceeds_m :
  Spec.valid_input (Some 1%Z) (Some (1 / 10)) /\
  exists c,
    @_sensitivity_sampler_config tape_error (Some 1%Z) (Some (1 / 10)) = Ok c /\
    ~ (1 <= cfg_k c <= cfg_m c).
Proof.
  split.
  - repeat split; [lia | lra | lra | left; discriminate].
  - destruct (config_one_tenth tape_error) as (c & Hc & Hlt & _).
    exists c. split; [exact Hc | lra].
Qed.

Lemma k_stays_in_range_as_gamma_grows_witness :
  exists c1 c2,
    @_sensitivity_sampler_config tape_error (Some 64%Z) (Some (1 / 2)) = Ok c1 /\
    @_sensitivity_sampler_config tape_error (Some 64%Z) (Some (3 / 4)) = Ok c2 /\
    cfg_m c1 = IZR 64 /\ cfg_m c2 = IZR 64 /\
    gamma_lo c1 = gamma_lo c2 /\
    cfg_k c2 <= cfg_k c1 /\
    gamma_lo c1 <= 1 / 2 /\
    1 <= cfg_k c1 <= cfg_m c1 /\
    1 <= cfg_k c2 <= cfg_m c2.
Proof.
  destruct (@k_stays_in_range_as_gamma_grows tape_error 64 (1 / 2) (3 / 4)
              ltac:(lia) ltac:(lra) ltac:(lra) ltac:(lra))
    as (c1 & c2 & Hc1 & Hc2 & Hm1 & Hm2 & _ & _ & Hlo & Hmono & Hk1 & Hk2
        & Hiff1 & Hiff2 & Hstay).
  assert (Hfloor := config_sixty_four Hc1).
  assert (Hin1 : 1 <= cfg_k c1 <= cfg_m c1).
  { split; [exact Hk1 | apply Hiff1; lra]. }
  exists c1, c2.
  split; [exact Hc1 | split; [exact Hc2 | ]].
  split; [exact Hm1 | split; [exact Hm2 | ]].
  split; [exact Hlo | split; [exact Hmono | ]].
  split; [lra | split; [exact Hin1 | ]].
  apply Hstay. exact Hin1.
Defined.

(** C9 fails as a statement about every pair of levels: with [m = 2],
    [gamma1 = 1/4] and [gamma2 = 1/2] the index exceeds [m] at both
    levels, so it is outside [1, m] before and after [gamma] grows. *)
Lemma k_out_of_range_as_gamma_grows :
  Spec.valid_input (Some 2%Z) (Some (1 / 4)) /\
  Spec.valid_input (Some 2%Z) (Some (1 / 2)) /\
  1 / 4 < 1 / 2 /\
  exists c1 c2,
    @_sensitivity_sampler_config tape_error (Some 2%Z) (Some (1 / 4)) = Ok c1 /\
    @_sensitivity_sampler_config tape_error (Some 2%Z) (Some (1 / 2)) = Ok c2 /\
    cfg_m c1 = IZR 2 /\ cfg_m c2 = IZR 2 /\
    cfg_m c1 < cfg_k c1 /\
    cfg_m c2 < cfg_k c2 /\
    ~ (1 <= cfg_k c2 <= cfg_m c2).
Proof.
  split; [repeat split; [lia | lra | lra | left; discriminate] | ].
  split; [repeat split; [lia | lra | lra | left; discriminate] | ].
  split; [lra | ].
  destruct (@config_two tape_error (1 / 4) ltac:(lra))
    as (c1 & Hc1 & Hm1 & _ & _ & Hk1).
  destruct (@config_two tape_error (1 / 2) ltac:(lra))
    as (c2 & Hc2 & Hm2 & _ & _ & Hk2).
  exists c1, c2.
  repeat split; try assumption. lra.
Qed.

Lemma valid_one_tenth : Spec.valid_input (Some 1%Z) (Some (1 / 10)).
Proof. repeat split; [lia | lra | lra | left; discriminate]. Qed.

Lemma k_beyond_m_raises_IndexError_witness :
  exists c,
    @_sensitivity_sampler_config tape_error (Some 1%Z) (Some (1 / 10)) = Ok c /\
    (int (cfg_m c) < int (cfg_k c))%Z /\
    (1 <= int (cfg_k c))%Z /\
    (forall est s',
        sample_sensitivity tape_run 5 (Some 1%Z) (Some (1 / 10)) tape
        <> (Ok est, s')) /\
    (forall samples s1,
        trials tape_run 5 (Z.to_nat (int (cfg_m c))) tape = (Ok samples, s1) ->
        sample_sensitivity tape_run 5 (Some 1%Z) (Some (1 / 10)) tape
        = (Raise IndexError, s1)).
Proof.
  destruct (config_one_tenth tape_error) as (c & Hc & _ & Hlt & _).
  exists c. split; [exact Hc | split; [exact Hlt | ]].
  apply (@k_beyond_m_raises_IndexError Z Z (list Z) tape_error tape_run
           5 (Some 1%Z) (Some (1 / 10)) c tape).
  - exact valid_one_tenth.
  - exact Hc.
  - exact Hlt.
Defined.

(** C5 fails on the kind of error: with [m = 1] and [gamma = 1/10] the
    computed [k] is outside [1, m], the trial runs (six records of the tape
    are used) and the call raises [IndexError]. *)
Lemma k_beyond_m_is_IndexError_not_InvalidConfiguration :
  exists c,
    @_sensitivity_sampler_config tape_error (Some 1%Z) (Some (1 / 10)) = Ok c /\
    ~ (1 <= int (cfg_k c) <= int (cfg_m c))%Z /\
    sample_sensitivity tape_run 5 (Some 1%Z) (Some (1 / 10)) tape
    = (Raise IndexError, skipn 6 tape) /\
    fst (sample_sensitivity tape_run 5 (Some 1%Z) (Some (1 / 10)) tape)
    <> Raise InvalidConfiguration.
Proof.
  destruct (config_one_tenth tape_error) as (c & Hc & _ & Hlt & Hm).
  assert (Hrun : sample_sensitivity tape_run 5 (Some 1%Z) (Some (1 / 10)) tape
                 = (Raise IndexError, skipn 6 tape)).
  { rewrite (sample_sensitivity_with_config tape_run 5 _ _ tape Hc).
    apply sampler_index_error with (vs := [1]); [lia | ].
    rewrite Hm. reflexivity. }
  exists c. split; [exact Hc | split; [lia | split; [exact Hrun | ]]].
  rewrite Hrun. discriminate.
Qed.

(** C6 fails on the kind of error: the call raises [TypeError]. *)
Lemma both_absent_is_TypeError_not_InvalidConfiguration :
  sample_sensitivity tape_run 5 None None tape = (Raise TypeError, tape) /\
  fst (sample_sensitivity tape_run 5 None None tape) <> Raise InvalidConfiguration.
Proof. split; [reflexivity | discriminate]. Qed.



Lemma collaborator_error_propagates_unchanged_witness :
  exists c,
    @_sensitivity_sampler_config tape_error (Some 3%Z) None = Ok c /\
    sample_sensitivity tape_run 5 (Some 3%Z) None (firstn 6 tape)
    = (Raise (Collaborator Exhausted), []) /\
    exists e0, Collaborator Exhausted = Collaborator e0 /\
      ((exists size st, oracle_sample tape_run size st = (inl e0, [])) \/
       (exists db st, query_get tape_run db st = (inl e0, [])) \/
       (exists v1 v2 st, norm_compute tape_run v1 v2 st = (inl e0, []))).
Proof.
  eexists. split; [reflexivity | ].
  eapply (@collaborator_error_propagates_unchanged Z Z (list Z) tape_error tape_run
            5 (Some 3%Z) None _ 1 (firstn 6 tape) [] [] [1]
           (Collaborator Exhausted)).
  - reflexivity.
  - simpl. rewrite int_IZR. simpl. lia.
  - reflexivity.
  - reflexivity.
Defined.

(** C8 fails on the wrapping: a run whose trial 0 raises and a run whose
    trial 1 raises end with the same exception, the one the oracle raised;
    nothing in it tells the trial. *)
Lemma error_carries_no_trial_index :
  trial tape_run 5 [] = (Raise (Collaborator Exhausted), []) /\
  sample_sensitivity tape_run 5 (Some 3%Z) None []
  = (Raise (Collaborator Exhausted), []) /\
  trials tape_run 5 1 (firstn 6 tape) = (Ok [1], []) /\
  sample_sensitivity tape_run 5 (Some 3%Z) None (firstn 6 tape)
  = (Raise (Collaborator Exhausted), []).
Proof.
  repeat split; try reflexivity.
  - rewrite sample_sensitivity_m_only by lia. rewrite sampler_run. reflexivity.
  - rewrite sample_sensitivity_m_only by lia. rewrite sampler_run. reflexivity.
Qed.

End Runs.

(** ** Federated averaging *)

Section FederatedAveraging.

Import NumPy FedAvg.
Local Open Scope R_scope.

Lemma add_arrays_length (d : nat) (x y : layer) :
  length x = d -> length y = d -> length (add_arrays x y) = d.
Proof.
  revert x y. induction d as [ | d IH]; intros [ | a x] [ | b y] Hx Hy;
    try discriminate; simpl; [reflexivity | ].
  f_equal. apply IH; [injection Hx | injection Hy]; auto.
Qed.

Lemma add_arrays_nth (x y : layer) (i : nat) :
  length x = length y ->
  nth i (add_arrays x y) 0 = nth i x 0 + nth i y 0.
Proof.
  revert y i. induction x as [ | a x IH]; intros [ | b y] i Hlen;
    try discriminate.
  - destruct i; simpl; lra.
  - destruct i as [ | i]; simpl; [reflexivity | ].
    apply IH. simpl in Hlen. lia.
Qed.

(** Adding up rows of one length: the length is kept and entry [i] is the
    sum of the entries [i]. *)
Lemma add_reduce (d i : nat) (rows : list layer) :
  forall acc : layer,
    length acc = d ->
    (forall r, In r rows -> length r = d) ->
    length (fold_left add_arrays rows acc) = d /\
    nth i (fold_left add_arrays rows acc) 0
    = nth i acc 0 + Rsum (map (fun r => nth i r 0) rows).
Proof.
  induction rows as [ | r rows IH]; intros acc Hacc Hrows; simpl.
  - split; [exact Hacc | unfold Rsum; simpl; lra].
  - assert (Hr : length r = d) by (apply Hrows; left; reflexivity).
    destruct (IH (add_arrays acc r)) as [Hlen Hnth].
    + apply add_arrays_length; assumption.
    + intros r' Hin. apply Hrows. right. exact Hin.
    + split; [exact Hlen | ].
      rewrite Hnth, add_arrays_nth by congruence.
      unfold Rsum. simpl. lra.
Qed.

(** [np.mean(rows, axis=0)] of rows of one length. *)
Lemma mean_axis0_spec (d : nat) (rows : list layer) :
  rows <> [] ->
  (forall r, In r rows -> length r = d) ->
  length (mean_axis0 rows) = d /\
  forall i, (i < d)%nat ->
    nth i (mean_axis0 rows) 0
    = Rsum (map (fun r => nth i r 0) rows) / INR (length rows).
Proof.
  intros Hne Hrows. destruct rows as [ | r rows]; [contradiction | clear Hne].
  assert (Hr : length r = d) by (apply Hrows; left; reflexivity).
  assert (Hrest : forall r', In r' rows -> length r' = d).
  { intros r' Hin. apply Hrows. right. exact Hin. }
  unfold mean_axis0. rewrite length_map. split.
  - apply (add_reduce 0 rows r Hr Hrest).
  - intros i Hi.
    destruct (add_reduce i rows r Hr Hrest) as [Hlen Hnth].
    rewrite (nth_indep _ 0 (0 / INR (length (r :: rows))))
      by (rewrite length_map; lia).
    rewrite (map_nth (fun x => x / INR (length (r :: rows)))), Hnth.
    unfold Rsum. simpl. reflexivity.
Qed.

Variable E : Type.

(** C10.  For a non-empty list of clients' parameters, each with [L]
    layers of [d] entries, [aggregate_weights] returns [L] layers of [d]
    entries; entry [i] of layer [j] is the sum over the clients of their
    entry [i] of layer [j], divided by the number of clients; the list of
    the caller is left as it was. *)
Theorem aggregate_weights_is_layerwise_mean
  (clients_params : list (list layer)) (L d : nat) :
  clients_params <> [] ->
  (forall client, In client clients_params ->
     length client = L /\ forall ly, In ly client -> length ly = d) ->
  exists aggregated_weights,
    @aggregate_weights E clients_params = (Ok aggregated_weights, clients_params) /\
    length aggregated_weights = L /\
    forall j, (j < L)%nat ->
      length (nth j aggregated_weights []) = d /\
      forall i, (i < d)%nat ->
        nth i (nth j aggregated_weights []) 0
        = Rsum (map (fun client => nth i (nth j client []) 0) clients_params)
          / INR (length clients_params).
Proof.
  intros Hne Hshape.
  destruct clients_params as [ | client rest] eqn:Hcp; [contradiction | ].
  rewrite <- Hcp in *.
  assert (HL : length client = L).
  { apply Hshape. rewrite Hcp. left. reflexivity. }
  exists (map (fun j => mean_axis0 (column clients_params j)) (seq 0 (length client))).
  split; [ | split].
  - unfold aggregate_weights. rewrite Hcp. reflexivity.
  - rewrite length_map, length_seq. exact HL.
  - intros j Hj.
    rewrite (nth_indep _ [] (mean_axis0 (column clients_params 0)))
      by (rewrite length_map, length_seq; lia).
    rewrite (map_nth (fun j => mean_axis0 (column clients_params j))).
    rewrite seq_nth by lia. simpl.
    assert (Hcol : forall r, In r (column clients_params j) -> length r = d).
    { intros r Hin. unfold column in Hin. apply in_map_iff in Hin.
      destruct Hin as (cl & Hr & Hcl). subst r.
      destruct (Hshape cl Hcl) as [HclL Hcld].
      apply Hcld. apply nth_In. unfold layer in *. lia. }
    assert (Hcne : column clients_params j <> []).
    { unfold column. rewrite Hcp. discriminate. }
    destruct (mean_axis0_spec Hcne Hcol) as [Hlen Hnth].
    split; [exact Hlen | ].
    intros i Hi. rewrite (Hnth i Hi).
    unfold column. rewrite map_map, length_map. reflexivity.
Qed.

End FederatedAveraging.

Section FederatedAveragingRun.

Import NumPy FedAvg.
Local Open Scope R_scope.

Lemma aggregate_weights_is_layerwise_mean_witness :
  exists aggregated_weights,
    @aggregate_weights unit [[[1; 2]; [3; 4]]; [[3; 4]; [5; 8]]]
    = (Ok aggregated_weights, [[[1; 2]; [3; 4]]; [[3; 4]; [5; 8]]]) /\
    length aggregated_weights = 2%nat /\
    forall j, (j < 2)%nat ->
      length (nth j aggregated_weights []) = 2%nat /\
      forall i, (i < 2)%nat ->
        nth i (nth j aggregated_weights []) 0
        = Rsum (map (fun client => nth i (nth j client []) 0)
                  [[[1; 2]; [3; 4]]; [[3; 4]; [5; 8]]])
          / INR (length [[[1; 2]; [3; 4]]; [[3; 4]; [5; 8]]]).
Proof.
  apply (@aggregate_weights_is_layerwise_mean unit
           [[[1; 2]; [3; 4]]; [[3; 4]; [5; 8]]] 2 2).
  - discriminate.
  - intros client [H | [H | []]]; subst client; (split; [reflexivity | ]);
      intros ly [H | [H | []]]; subst ly; reflexivity.
Defined.

(** The aggregate of the two clients above, entry by entry. *)
Example aggregate_two_clients :
  @aggregate_weights unit [[[1; 2]; [3; 4]]; [[3; 4]; [5; 8]]]
  = (Ok [[(1 + 3) / (1 + 1); (2 + 4) / (1 + 1)];
         [(3 + 5) / (1 + 1); (4 + 8) / (1 + 1)]],
     [[[1; 2]; [3; 4]]; [[3; 4]; [5; 8]]]).
Proof. reflexivity. Qed.

End FederatedAveragingRun.

(** * Further properties of the code *)

(** ** Sorted arrays *)

Section SortedArrays.

Import NumPy.
Local Open Scope R_scope.

Lemma Sorted_Rle_strongly (l : list R) : Sorted Rle l -> StronglySorted Rle l.
Proof.
  apply Sorted_StronglySorted. intros a b c. apply Rle_trans.
Qed.

(** In an ascending array a later entry is not below an earlier one. *)
Lemma sorted_nth_error_le (l : list R) :
  Sorted Rle l ->
  forall (i j : nat) (x y : R),
    (i <= j)%nat -> nth_error l i = Some x -> nth_error l j = Some y -> x <= y.
Proof.
  intros Hs. apply Sorted_Rle_strongly in Hs.
  induction Hs as [ | a l Hs IH Hall]; intros i j x y Hij Hi Hj.
  - destruct i; discriminate.
  - destruct i as [ | i]; destruct j as [ | j]; simpl in Hi, Hj.
    + inversion Hi; inversion Hj; subst. lra.
    + inversion Hi; subst. rewrite Forall_forall in Hall.
      apply Hall. apply (nth_error_In _ _ Hj).
    + lia.
    + apply (IH i j); [lia | assumption | assumption].
Qed.

(** Two ascending arrangements of the same samples are the same array. *)
Lemma sorted_perm_unique (l l' : list R) :
  Sorted Rle l -> Sorted Rle l' -> Permutation l l' -> l = l'.
Proof.
  intros Hs. apply Sorted_Rle_strongly in Hs. revert l'.
  induction Hs as [ | a l Hs IH Hall]; intros l' Hs' Hperm.
  - apply Permutation_nil in Hperm. subst. reflexivity.
  - assert (Hs'' := Sorted_Rle_strongly Hs').
    destruct l' as [ | b l'].
    { apply Permutation_sym, Permutation_nil in Hperm. discriminate. }
    inversion Hs'' as [ | ? ? Hs2 Hall2]; subst.
    rewrite Forall_forall in Hall, Hall2.
    assert (Hab : a = b).
    { assert (Ha : In a (b :: l')) by (apply (Permutation_in _ Hperm); left; reflexivity).
      assert (Hb : In b (a :: l))
        by (apply (Permutation_in _ (Permutation_sym Hperm)); left; reflexivity).
      destruct Ha as [Ha | Ha]; [congruence | ].
      destruct Hb as [Hb | Hb]; [congruence | ].
      specialize (Hall b Hb). specialize (Hall2 a Ha). lra. }
    subst b. f_equal. apply IH.
    + inversion Hs'; assumption.
    + apply (Permutation_cons_inv Hperm).
Qed.

(** A negative index counts from the end. *)
Lemma getitem_wrap (E A : Type) (a : list A) (i : Z) :
  (i < 0)%Z ->
  @getitem E A a i = @getitem E A a (i + Z.of_nat (length a)) \/
  @getitem E A a i = Raise IndexError /\ (i < - Z.of_nat (length a))%Z.
Proof.
  intros Hi. unfold getitem.
  replace (i <? 0)%Z with true by (symmetry; apply Z.ltb_lt; exact Hi).
  destruct (Z_lt_le_dec (i + Z.of_nat (length a)) 0) as [Hlow | Hin].
  - right. split; [ | lia].
    replace (0 <=? Z.of_nat (length a) + i)%Z with false
      by (symmetry; apply Z.leb_gt; lia).
    reflexivity.
  - left.
    replace (i + Z.of_nat (length a) <? 0)%Z with false
      by (symmetry; apply Z.ltb_ge; lia).
    rewrite (Z.add_comm (Z.of_nat (length a)) i). reflexivity.
Qed.

Lemma Rsum_upper (l : list R) (hi : R) :
  (forall v, In v l -> v <= hi) -> Rsum l <= INR (length l) * hi.
Proof.
  induction l as [ | a l IH]; intros H.
  - unfold Rsum. simpl. lra.
  - change (Rsum (a :: l)) with (a + Rsum l).
    change (length (a :: l)) with (S (length l)). rewrite S_INR.
    assert (Ha : a <= hi) by (apply H; left; reflexivity).
    assert (Hl : Rsum l <= INR (length l) * hi).
    { apply IH. intros v Hv. apply H. right. exact Hv. }
    lra.
Qed.

Lemma Rsum_lower (l : list R) (lo : R) :
  (forall v, In v l -> lo <= v) -> INR (length l) * lo <= Rsum l.
Proof.
  induction l as [ | a l IH]; intros H.
  - unfold Rsum. simpl. lra.
  - change (Rsum (a :: l)) with (a + Rsum l).
    change (length (a :: l)) with (S (length l)). rewrite S_INR.
    assert (Ha : lo <= a) by (apply H; left; reflexivity).
    assert (Hl : INR (length l) * lo <= Rsum l).
    { apply IH. intros v Hv. apply H. right. exact Hv. }
    lra.
Qed.

(** The mean of a non-empty list lies between any two bounds of its
    entries. *)
Lemma mean_between (l : list R) (lo hi : R) :
  l <> [] ->
  (forall v, In v l -> lo <= v <= hi) ->
  lo <= Rsum l / INR (length l) <= hi.
Proof.
  intros Hne H.
  assert (Hn : 0 < INR (length l)).
  { apply lt_0_INR. destruct l; [contradiction | simpl; lia]. }
  assert (Hlo := @Rsum_lower l lo ltac:(intros v Hv; apply H; exact Hv)).
  assert (Hhi := @Rsum_upper l hi ltac:(intros v Hv; apply H; exact Hv)).
  split.
  - apply Rmult_le_reg_r with (INR (length l)); [exact Hn | ].
    unfold Rdiv. rewrite Rmult_assoc, Rinv_l by lra. lra.
  - apply Rmult_le_reg_r with (INR (length l)); [exact Hn | ].
    unfold Rdiv. rewrite Rmult_assoc, Rinv_l by lra. lra.
Qed.

End SortedArrays.

(** ** The sampler as a function of the samples of its trials *)

Section SamplerExtras.

Import NumPy Config Sampler Spec.
Local Open Scope R_scope.

Variables Rec Val St E : Type.
Variable C : collaborators Rec Val St E.

(** Once the trials have produced their samples, the result is read off
    one ascending arrangement of them, whatever [k] is. *)
Lemma sampler_on_samples (n m : Z) (s s' : St) (vs : list R) :
  (0 <= m)%Z ->
  trials C n (Z.to_nat m) s = (Ok vs, s') ->
  exists sorted,
    Permutation sorted vs /\ Sorted Rle sorted /\
    length sorted = Z.to_nat m /\
    forall k,
      _sensitivity_sampler C n m k s =
      (match getitem (map Finite sorted) (k - 1) with
       | Ok x => Ok (x, Finite (Rsum vs / INR (length vs)))
       | Raise e => Raise e
       end, s').
Proof.
  intros Hm Hvs.
  destruct (sort_finite vs) as (sorted & Hsort & Hperm & Hsorted).
  exists sorted. repeat split; try assumption.
  - rewrite (Permutation_length Hperm). apply (trials_length _ _ _ _ Hvs).
  - intros k. rewrite sampler_run.
    replace (m <? 0)%Z with false by (symmetry; apply Z.ltb_ge; lia).
    rewrite Hvs, Hsort, (mean_sorted Hperm). reflexivity.
Qed.

Lemma getitem_finite (sorted : list R) (i : Z) (y : float) :
  @getitem E float (map Finite sorted) i = Ok y ->
  (0 <= i)%Z ->
  exists x, y = Finite x /\ nth_error sorted (Z.to_nat i) = Some x.
Proof.
  intros Hget Hi.
  assert (Hnth := getitem_in_range _ Hi Hget).
  rewrite nth_error_map in Hnth.
  destruct (nth_error sorted (Z.to_nat i)) as [x | ]; [ | discriminate].
  simpl in Hnth. inversion Hnth. eauto.
Qed.

(** X1.  [_sensitivity_sampler] returns an estimate exactly when [m] is
    not negative, every one of the [m] trials completes, and
    [-m < k <= m]; so never for [m = 0]. *)
Theorem sampler_returns_iff (n m k : Z) (s : St) :
  (exists est s', _sensitivity_sampler C n m k s = (Ok est, s')) <->
  (0 <= m)%Z /\
  (exists vs s', trials C n (Z.to_nat m) s = (Ok vs, s')) /\
  (- m < k <= m)%Z.
Proof.
  split.
  - intros (est & s' & Hrun). rewrite sampler_run in Hrun.
    destruct (m <? 0)%Z eqn:Hneg; [discriminate | ].
    apply Z.ltb_ge in Hneg.
    destruct (trials C n (Z.to_nat m) s) as [[vs | e] s1] eqn:Hvs; [ | discriminate].
    destruct (getitem (sort (map Finite vs)) (k - 1)) as [y | e] eqn:Hget;
      [ | discriminate].
    assert (Hrange := getitem_Ok_range _ _ Hget).
    destruct (sort_finite vs) as (sorted & Hsort & Hperm & _).
    rewrite Hsort, length_map, (Permutation_length Hperm),
      (trials_length _ _ _ _ Hvs) in Hrange.
    split; [exact Hneg | split; [eauto | lia]].
  - intros (Hm & (vs & s' & Hvs) & Hk).
    destruct (sampler_on_samples n s Hm Hvs) as (sorted & _ & _ & Hlen & Hrun).
    rewrite (Hrun k).
    assert (Hin : forall i, (0 <= i < Z.of_nat (length (map Finite sorted)))%Z ->
                  exists y, @getitem E float (map Finite sorted) i = Ok y).
    { intros i Hi. destruct (@getitem_inside E _ (map Finite sorted) i Hi)
        as (y & Hy & _). eauto. }
    assert (Hl : Z.of_nat (length (map Finite sorted)) = m).
    { rewrite length_map, Hlen. lia. }
    destruct (Z_lt_le_dec (k - 1) 0) as [Hneg | Hpos].
    + destruct (@getitem_wrap E _ (map Finite sorted) (k - 1) Hneg)
        as [Hw | [_ Hw]]; [ | lia].
      destruct (Hin (k - 1 + Z.of_nat (length (map Finite sorted)))%Z ltac:(lia))
        as (y & Hy).
      rewrite Hw, Hy. eauto.
    + destruct (Hin (k - 1)%Z ltac:(lia)) as (y & Hy). rewrite Hy. eauto.
Qed.

(** X2.  For [-m < k <= 0] the index [k - 1] is negative and counts from
    the end of the sorted array: the sampler does exactly what it does for
    [k + m].  With [k = 0] it returns, without any error, the result for
    [k = m]. *)
Theorem sampler_wraps_nonpositive_k (n m k : Z) (s : St) :
  (- m < k <= 0)%Z ->
  _sensitivity_sampler C n m k s = _sensitivity_sampler C n m (k + m) s.
Proof.
  intros Hk. rewrite !sampler_run.
  replace (m <? 0)%Z with false by (symmetry; apply Z.ltb_ge; lia).
  destruct (trials C n (Z.to_nat m) s) as [[vs | e] s'] eqn:Hvs; [ | reflexivity].
  destruct (sort_finite vs) as (sorted & Hsort & Hperm & _).
  assert (Hl : Z.of_nat (length (sort (map Finite vs))) = m).
  { rewrite Hsort, length_map, (Permutation_length Hperm),
      (trials_length _ _ _ _ Hvs). lia. }
  destruct (@getitem_wrap E _ (sort (map Finite vs)) (k - 1) ltac:(lia))
    as [Hw | [_ Hw]]; [ | lia].
  rewrite Hw, Hl. replace (k - 1 + m)%Z with (k + m - 1)%Z by lia. reflexivity.
Qed.

(** X3.  From one starting state, a larger in-range [k] gives a
    sensitivity that is not smaller; the mean and the state the
    collaborators are left in do not depend on [k]. *)
Theorem sampler_monotone_in_k
  (n m k1 k2 : Z) (s s1 s2 : St) (x1 x2 mean1 mean2 : float) :
  (1 <= k1 <= k2)%Z ->
  _sensitivity_sampler C n m k1 s = (Ok (x1, mean1), s1) ->
  _sensitivity_sampler C n m k2 s = (Ok (x2, mean2), s2) ->
  exists r1 r2, x1 = Finite r1 /\ x2 = Finite r2 /\ r1 <= r2 /\
                mean1 = mean2 /\ s1 = s2.
Proof.
  intros Hk H1 H2.
  assert (Hok : exists est s', _sensitivity_sampler C n m k1 s = (Ok est, s'))
    by eauto.
  apply sampler_returns_iff in Hok. destruct Hok as (Hm & (vs & s' & Hvs) & _).
  destruct (sampler_on_samples n s Hm Hvs) as (sorted & _ & Hsorted & _ & Hrun).
  rewrite (Hrun k1) in H1. rewrite (Hrun k2) in H2.
  destruct (getitem (map Finite sorted) (k1 - 1)) as [y1 | e] eqn:G1; [ | discriminate].
  destruct (getitem (map Finite sorted) (k2 - 1)) as [y2 | e] eqn:G2; [ | discriminate].
  destruct (getitem_finite sorted G1 ltac:(lia)) as (r1 & Hy1 & N1).
  destruct (getitem_finite sorted G2 ltac:(lia)) as (r2 & Hy2 & N2).
  inversion H1; inversion H2; subst.
  exists r1, r2. repeat split; try reflexivity.
  apply (@sorted_nth_error_le sorted Hsorted
           (Z.to_nat (k1 - 1)) (Z.to_nat (k2 - 1)) r1 r2);
    [lia | assumption | assumption].
Qed.

End SamplerExtras.

(** ** What the estimates are made of *)

Section Estimates.

Import NumPy Config Sampler Spec.
Local Open Scope R_scope.

Variables Rec Val St E : Type.
Variable C : collaborators Rec Val St E.

(** The sample of a trial is what [norm.compute] returned in it. *)
Lemma trial_value (n : Z) (s s' : St) (v : R) :
  trial C n s = (Ok v, s') ->
  exists v1 v2 st, norm_compute C v1 v2 st = (inr v, s').
Proof.
  unfold trial, sample_databases, _sensitivity_norm, bind, call, ret.
  destruct (oracle_sample C (n - 1) s) as [[e1 | l] s1]; [discriminate | ].
  destruct (oracle_sample C 1 s1) as [[e2 | l1] s2]; [discriminate | ].
  destruct (oracle_sample C 1 s2) as [[e3 | l2] s3]; [discriminate | ].
  simpl.
  destruct (query_get C (l ++ l1) s3) as [[e4 | v1] s4]; [discriminate | ].
  destruct (query_get C (l ++ l2) s4) as [[e5 | v2] s5]; [discriminate | ].
  destruct (norm_compute C v1 v2 s5) as [[e6 | x] s6] eqn:H6; [discriminate | ].
  intros H. inversion H; subst. eauto.
Qed.

Lemma trials_values (n : Z) (todo : nat) :
  forall (s s' : St) (vs : list R),
    trials C n todo s = (Ok vs, s') ->
    forall v, In v vs ->
      exists v1 v2 st st', norm_compute C v1 v2 st = (inr v, st').
Proof.
  induction todo as [ | todo IH]; intros s s' vs H v Hin; simpl in H.
  - inversion H; subst. contradiction.
  - unfold bind in H.
    destruct (trial C n s) as [[v0 | e] s1] eqn:H0; [ | discriminate].
    destruct (trials C n todo s1) as [[vs' | e] s2] eqn:Hrest; [ | discriminate].
    inversion H; subst. destruct Hin as [Hv | Hv].
    + subst v0. destruct (trial_value n s H0) as (v1 & v2 & st & Hn). eauto.
    + apply (IH s1 s' vs' Hrest v Hv).
Qed.

(** The sample at position [i] is the one trial [i] of the run returned:
    the run reaches that trial after [i] completed trials. *)
Lemma trials_nth (n : Z) (todo : nat) :
  forall (s s' : St) (vs : list R) (i : nat) (x : R),
    trials C n todo s = (Ok vs, s') ->
    nth_error vs i = Some x ->
    exists done si si',
      (i < todo)%nat /\
      trials C n i s = (Ok done, si) /\ done = firstn i vs /\
      trial C n si = (Ok x, si').
Proof.
  induction todo as [ | todo IH]; intros s s' vs i x H Hx; simpl in H.
  - inversion H; subst. destruct i; discriminate.
  - unfold bind in H.
    destruct (trial C n s) as [[v0 | e] s1] eqn:H0; [ | discriminate].
    destruct (trials C n todo s1) as [[vs' | e] s2] eqn:Hrest; [ | discriminate].
    inversion H; subst. destruct i as [ | i].
    + simpl in Hx. inversion Hx; subst.
      exists [], s, s1. repeat split; [lia | assumption].
    + simpl in Hx.
      destruct (IH s1 s' vs' i x Hrest Hx) as (done & si & si' & Hi & Hd & Hf & Ht).
      exists (v0 :: done), si, si'.
      split; [lia | split; [ | split; [ | exact Ht]]].
      * simpl. unfold bind. rewrite H0, Hd. reflexivity.
      * simpl. rewrite Hf. reflexivity.
Qed.

(** X4.  On a valid input, the sensitivity a call returns is the sample
    of one trial [i] of this very run: the value [norm.compute] returned
    in the trial the run reaches after [i] completed trials; so it lies
    within every bound that holds for all values [norm.compute] returns.
    The mean is the arithmetic mean of the samples of the run; over the
    reals it lies within the same bounds. *)
Theorem estimates_come_from_the_norm
  (n : Z) (m : option Z) (gamma : option R) (s s' : St) (sensitivity mean : float) :
  valid_input m gamma ->
  sample_sensitivity C n m gamma s = (Ok (sensitivity, mean), s') ->
  exists c samples x mu i done si si',
    @_sensitivity_sampler_config E m gamma = Ok c /\
    trials C n (Z.to_nat (int (cfg_m c))) s = (Ok samples, s') /\
    sensitivity = Finite x /\ mean = Finite mu /\
    (i < Z.to_nat (int (cfg_m c)))%nat /\
    nth_error samples i = Some x /\
    trials C n i s = (Ok done, si) /\ done = firstn i samples /\
    trial C n si = (Ok x, si') /\
    (exists v1 v2 st, norm_compute C v1 v2 st = (inr x, si')) /\
    mu = Rsum samples / INR (length samples) /\
    (forall lo,
        (forall v1 v2 st y st', norm_compute C v1 v2 st = (inr y, st') -> lo <= y) ->
        lo <= x /\ lo <= mu) /\
    (forall hi,
        (forall v1 v2 st y st', norm_compute C v1 v2 st = (inr y, st') -> y <= hi) ->
        x <= hi /\ mu <= hi).
Proof.
  intros Hvalid Hrun.
  destruct (config_valid E Hvalid) as (c & Hc & _ & Hm1 & Hk1 & _).
  rewrite (sample_sensitivity_with_config C n m gamma s Hc) in Hrun.
  assert (Hok : exists est s1,
             _sensitivity_sampler C n (int (cfg_m c)) (int (cfg_k c)) s = (Ok est, s1))
    by eauto.
  apply sampler_returns_iff in Hok. destruct Hok as (Hm & (vs & s1 & Hvs) & Hk).
  destruct (sampler_on_samples C n s Hm Hvs) as (sorted & Hperm & _ & Hlen & Hsame).
  rewrite (Hsame (int (cfg_k c))) in Hrun.
  destruct (getitem (map Finite sorted) (int (cfg_k c) - 1)) as [y | e] eqn:Hget;
    [ | discriminate].
  destruct (getitem_finite sorted Hget ltac:(lia)) as (x & Hy & Hnth).
  inversion Hrun; subst.
  assert (Hx : In x vs).
  { apply (Permutation_in _ Hperm). apply (nth_error_In _ _ Hnth). }
  destruct (In_nth_error _ _ Hx) as (i & Hi).
  destruct (trials_nth n _ s i Hvs Hi) as (done & si & si' & Hlt & Hd & Hf & Ht).
  assert (Hne : vs <> []) by (destruct vs; [contradiction | discriminate]).
  assert (Hn : 0 < INR (length vs)).
  { apply lt_0_INR. destruct vs; [contradiction | simpl; lia]. }
  exists c, vs, x, (Rsum vs / INR (length vs)), i, done, si, si'.
  split; [exact Hc | split; [exact Hvs | ]].
  split; [reflexivity | split; [reflexivity | ]].
  split; [exact Hlt | split; [exact Hi | ]].
  split; [exact Hd | split; [exact Hf | split; [exact Ht | ]]].
  split; [apply (trial_value n si Ht) | ].
  split; [reflexivity | split].
  - intros lo Hlo.
    assert (Hall : forall v, In v vs -> lo <= v).
    { intros v Hv.
      destruct (trials_values n _ s Hvs v Hv) as (v1 & v2 & st & st' & Hnorm).
      apply (Hlo _ _ _ _ _ Hnorm). }
    split; [apply Hall; exact Hx | ].
    assert (Hsum := Rsum_lower vs Hall).
    apply Rmult_le_reg_r with (INR (length vs)); [exact Hn | ].
    unfold Rdiv. rewrite Rmult_assoc, Rinv_l by lra. lra.
  - intros hi Hhi.
    assert (Hall : forall v, In v vs -> v <= hi).
    { intros v Hv.
      destruct (trials_values n _ s Hvs v Hv) as (v1 & v2 & st & st' & Hnorm).
      apply (Hhi _ _ _ _ _ Hnorm). }
    split; [apply Hall; exact Hx | ].
    assert (Hsum := Rsum_upper vs Hall).
    apply Rmult_le_reg_r with (INR (length vs)); [exact Hn | ].
    unfold Rdiv. rewrite Rmult_assoc, Rinv_l by lra. lra.
Qed.

(** X5.  With [m] supplied and [gamma] absent ([k = m]) the sensitivity
    a call returns is the largest of the [m] samples; over the reals, the
    mean does not exceed it. *)
Theorem m_only_returns_largest_sample
  (n mz : Z) (s s' : St) (sensitivity mean : float) :
  (1 <= mz)%Z ->
  sample_sensitivity C n (Some mz) None s = (Ok (sensitivity, mean), s') ->
  exists samples x mu,
    trials C n (Z.to_nat mz) s = (Ok samples, s') /\
    sensitivity = Finite x /\ mean = Finite mu /\
    In x samples /\ (forall v, In v samples -> v <= x) /\ mu <= x.
Proof.
  intros Hmz Hrun.
  rewrite sample_sensitivity_m_only in Hrun by lia.
  assert (Hok : exists est s1, _sensitivity_sampler C n mz mz s = (Ok est, s1))
    by eauto.
  apply sampler_returns_iff in Hok. destruct Hok as (Hm & (vs & s1 & Hvs) & _).
  destruct (sampler_on_samples C n s Hm Hvs)
    as (sorted & Hperm & Hsorted & Hlen & Hsame).
  rewrite (Hsame mz) in Hrun.
  destruct (getitem (map Finite sorted) (mz - 1)) as [y | e] eqn:Hget;
    [ | discriminate].
  destruct (getitem_finite sorted Hget ltac:(lia)) as (x & Hy & Hnth).
  inversion Hrun; subst.
  assert (Hx : In x vs).
  { apply (Permutation_in _ Hperm). apply (nth_error_In _ _ Hnth). }
  assert (Hmax : forall v, In v vs -> v <= x).
  { intros v Hv.
    apply (Permutation_in _ (Permutation_sym Hperm)) in Hv.
    destruct (In_nth_error _ _ Hv) as (i & Hi).
    assert (Hlt : (i < length sorted)%nat).
    { apply nth_error_Some. rewrite Hi. discriminate. }
    apply (@sorted_nth_error_le sorted Hsorted i (Z.to_nat (mz - 1)) v x);
      [lia | assumption | assumption]. }
  assert (Hn : 0 < INR (length vs)).
  { apply lt_0_INR. destruct vs; [contradiction | simpl; lia]. }
  exists vs, x, (Rsum vs / INR (length vs)).
  repeat split; try assumption.
  assert (Hsum := Rsum_upper vs Hmax).
  apply Rmult_le_reg_r with (INR (length vs)); [exact Hn | ].
  unfold Rdiv. rewrite Rmult_assoc, Rinv_l by lra. lra.
Qed.

(** X6.  A supplied [m] that is not positive makes the call fail before
    any collaborator is called: [m = 0] raises [ZeroDivisionError] in the
    calibrator, whatever [gamma] is; a negative [m] without [gamma] raises
    [ValueError] when the sample array is allocated. *)
Theorem nonpositive_m_fails_before_sampling
  (n mz : Z) (gamma : option R) (s : St) :
  (mz <= 0)%Z ->
  sample_sensitivity C n (Some 0%Z) gamma s = (Raise ZeroDivisionError, s) /\
  sample_sensitivity C n (Some mz) None s
  = (Raise (if (mz =? 0)%Z then ZeroDivisionError else ValueError), s).
Proof.
  intros Hmz. split; [reflexivity | ].
  destruct (mz =? 0)%Z eqn:Hz.
  - apply Z.eqb_eq in Hz. subst mz. reflexivity.
  - apply Z.eqb_neq in Hz.
    rewrite sample_sensitivity_m_only by exact Hz.
    rewrite sampler_run.
    replace (mz <? 0)%Z with true by (symmetry; apply Z.ltb_lt; lia).
    reflexivity.
Qed.

Variable C' : collaborators Rec Val St E.

(** X7.  The result depends on the samples only through their multiset:
    two runs whose trials produce the same samples in a different order
    return the same sensitivity and the same mean. *)
Theorem result_ignores_sample_order
  (n n' m k : Z) (s s1 s' s1' : St) (vs vs' : list R) :
  (0 <= m)%Z ->
  trials C n (Z.to_nat m) s = (Ok vs, s1) ->
  trials C' n' (Z.to_nat m) s' = (Ok vs', s1') ->
  Permutation vs vs' ->
  fst (_sensitivity_sampler C n m k s) = fst (_sensitivity_sampler C' n' m k s').
Proof.
  intros Hm Hvs Hvs' Hperm.
  destruct (sampler_on_samples C n s Hm Hvs) as (sorted & Hp & Hs & _ & Hrun).
  destruct (sampler_on_samples C' n' s' Hm Hvs') as (sorted' & Hp' & Hs' & _ & Hrun').
  rewrite (Hrun k), (Hrun' k). simpl.
  assert (Heq : sorted = sorted').
  { apply sorted_perm_unique; try assumption.
    rewrite Hp, Hperm. symmetry. exact Hp'. }
  rewrite Heq, (Rsum_perm Hperm), (Permutation_length Hperm). reflexivity.
Qed.

End Estimates.

(** ** How often the collaborators are called *)

Section Calls.

Import NumPy Config Sampler Observe.
Local Open Scope R_scope.

Variables Rec Val St E : Type.
Variable C : collaborators Rec Val St E.

(** A completed trial under observation: the same sample and state as
    without the counters, after three oracle calls asking for [n + 1]
    records in all, two queries and one norm. *)
Lemma trial_counting (n : Z) (s : St) (c : counts) (v : R) (sc' : St * counts) :
  trial (counting C) n (s, c) = (Ok v, sc') ->
  trial C n s = (Ok v, fst sc') /\
  snd sc' = mkCounts (3 + sample_calls c) (records_asked c + (n + 1))
                     (2 + get_calls c) (1 + compute_calls c).
Proof.
  unfold trial, sample_databases, _sensitivity_norm, bind, call, ret. simpl.
  destruct (oracle_sample C (n - 1) s) as [[e1 | l] s1]; [discriminate | ].
  simpl.
  destruct (oracle_sample C 1 s1) as [[e2 | l1] s2]; [discriminate | ].
  simpl.
  destruct (oracle_sample C 1 s2) as [[e3 | l2] s3]; [discriminate | ].
  simpl.
  destruct (query_get C (l ++ l1) s3) as [[e4 | v1] s4]; [discriminate | ].
  simpl.
  destruct (query_get C (l ++ l2) s4) as [[e5 | v2] s5]; [discriminate | ].
  simpl.
  destruct (norm_compute C v1 v2 s5) as [[e6 | x] s6]; [discriminate | ].
  simpl. intros H. inversion H; subst. simpl. split; [reflexivity | ].
  f_equal. lia.
Qed.

Lemma trials_counting (n : Z) (todo : nat) :
  forall (s : St) (c : counts) (vs : list R) (sc' : St * counts),
    trials (counting C) n todo (s, c) = (Ok vs, sc') ->
    trials C n todo s = (Ok vs, fst sc') /\
    snd sc' = mkCounts (3 * todo + sample_calls c)
                       (records_asked c + Z.of_nat todo * (n + 1))
                       (2 * todo + get_calls c) (todo + compute_calls c).
Proof.
  induction todo as [ | todo IH]; intros s c vs sc' H.
  - simpl in H. inversion H; subst. simpl. split; [reflexivity | ].
    destruct c; simpl. f_equal. lia.
  - change (trials (counting C) n (S todo) (s, c))
      with (bind (trial (counting C) n)
              (fun v => bind (trials (counting C) n todo)
                          (fun vs => ret (v :: vs))) (s, c)) in H.
    unfold bind at 1 in H.
    destruct (trial (counting C) n (s, c)) as [[v | e] [s1 c1]] eqn:Hv;
      [ | discriminate].
    destruct (trial_counting n s c Hv) as [Hv' Hc1]. simpl in Hv', Hc1.
    unfold bind in H.
    destruct (trials (counting C) n todo (s1, c1)) as [[vs' | e] sc2] eqn:Hrest;
      [ | discriminate].
    destruct (IH s1 c1 vs' sc2 Hrest) as [Hrest' Hc2].
    unfold ret in H. inversion H; subst vs sc'.
    split.
    + simpl. unfold bind. rewrite Hv', Hrest'. reflexivity.
    + rewrite Hc2, Hc1.
      cbn [sample_calls records_asked get_calls compute_calls].
      rewrite Nat2Z.inj_succ. f_equal; lia.
Qed.

(** X8.  A call of [_sensitivity_sampler] that returns has called
    [oracle.sample] exactly [3 m] times, asking for [m (n + 1)] records in
    all, [query.get] exactly [2 m] times and [norm.compute] exactly [m]
    times; the counters do not change what it returns. *)
Theorem sampler_call_counts
  (n m k : Z) (s : St) (est : float * float) (sc' : St * counts) :
  _sensitivity_sampler (counting C) n m k (s, no_calls) = (Ok est, sc') ->
  _sensitivity_sampler C n m k s = (Ok est, fst sc') /\
  snd sc' = mkCounts (3 * Z.to_nat m) (m * (n + 1)) (2 * Z.to_nat m) (Z.to_nat m).
Proof.
  intros Hrun. rewrite sampler_run in Hrun. rewrite sampler_run.
  destruct (m <? 0)%Z eqn:Hneg; [discriminate | ].
  apply Z.ltb_ge in Hneg.
  destruct (trials (counting C) n (Z.to_nat m) (s, no_calls))
    as [[vs | e] sc1] eqn:Hvs; [ | discriminate].
  destruct (trials_counting n (Z.to_nat m) s no_calls Hvs) as [Hvs' Hc].
  rewrite Hvs'.
  destruct (getitem (sort (map Finite vs)) (k - 1)) as [y | e] eqn:Hget;
    [ | discriminate].
  inversion Hrun; subst. split; [reflexivity | ].
  rewrite Hc. unfold no_calls.
  cbn [sample_calls records_asked get_calls compute_calls].
  rewrite Z2Nat.id by lia. f_equal; lia.
Qed.

End Calls.

(** ** More on the calibrator *)

Section CalibratorExtras.

Import NumPy Config Spec.
Local Open Scope R_scope.

Variable E : Type.

(** X9.  With [m] absent and [gamma] in (0,1), [rho] is below [gamma] and
    the returned [m] is the least positive integer whose floor
    [rho + sqrt(ln(1/rho) / (2 m))] does not exceed [gamma]. *)
Theorem computed_m_is_least_sufficient (g : R) :
  0 < g < 1 ->
  exists (c : config) (M : Z),
    @_sensitivity_sampler_config E None (Some g) = Ok c /\
    cfg_m c = IZR M /\ (1 <= M)%Z /\
    0 < cfg_rho c < g /\
    cfg_rho c + sqrt (ln (1 / cfg_rho c) / (2 * IZR M)) <= g /\
    forall M' : Z, (1 <= M' < M)%Z ->
      g < cfg_rho c + sqrt (ln (1 / cfg_rho c) / (2 * IZR M')).
Proof.
  intros Hg.
  set (rho := exp (SciPy.real_lambertw (- g / (2 * exp (1 / 2))) 1 + 1 / 2)).
  set (q := ln (1 / rho) / (2 * (g - rho) ^ 2)).
  set (m' := NumPy.ceil q).
  set (glo := rho + sqrt (ln (1 / rho) / (2 * m'))).
  destruct (rho_of_gamma Hg) as [Hrho0 Hrho]. fold rho in Hrho0, Hrho.
  assert (Hrho1 : 0 < rho < 1) by lra.
  destruct (@m_of_gamma rho g Hrho1 ltac:(lra)) as [Hm1 Hglo].
  fold q in Hm1, Hglo. fold m' in Hm1, Hglo. fold glo in Hglo.
  exists (mkConfig m' g (NumPy.ceil (m' * (1 - g + glo))) rho), (Zceil q).
  split; [reflexivity | ]. simpl.
  split; [reflexivity | ].
  split; [apply le_IZR; exact Hm1 | ].
  split; [lra | ].
  split; [exact (proj2 Hglo) | ].
  intros M' [HM1 HM].
  assert (HL := ln_inv_pos Hrho1).
  set (L := ln (1 / rho)) in *.
  set (d := g - rho).
  assert (Hd : 0 < d) by (unfold d; lra).
  assert (HM' : 1 <= IZR M') by (apply IZR_le in HM1; exact HM1).
  assert (Hlt : IZR M' < q).
  { assert (Hc := ceil_lower q). fold m' in Hc.
    assert (IZR M' <= m' - 1).
    { unfold m', NumPy.ceil. rewrite <- minus_IZR. apply IZR_le. lia. }
    lra. }
  assert (Hq : q * (2 * (d * d)) = L).
  { unfold q, d. field. nra. }
  assert (Hdd : d * d < L / (2 * IZR M')).
  { apply Rmult_lt_reg_r with (2 * IZR M'); [lra | ].
    replace (L / (2 * IZR M') * (2 * IZR M')) with L by (field; lra).
    assert (IZR M' * (2 * (d * d)) < q * (2 * (d * d))).
    { apply Rmult_lt_compat_r; [nra | exact Hlt]. }
    lra. }
  assert (Hs : d < sqrt (L / (2 * IZR M'))).
  { rewrite <- (sqrt_square d) at 1 by lra.
    apply sqrt_lt_1_alt. split; [nra | exact Hdd]. }
  unfold d in Hs. lra.
Qed.

(** X10.  On a valid input with one argument absent the returned values
    satisfy [0 < rho < rho + sqrt(ln(1/rho) / (2 m)) <= gamma]: the
    arguments of the logarithm and of the square root are positive and
    [gamma] exceeds [rho]. *)
Theorem rho_below_returned_gamma (m : option Z) (gamma : option R) :
  valid_input m gamma ->
  m = None \/ gamma = None ->
  exists c,
    @_sensitivity_sampler_config E m gamma = Ok c /\
    0 < cfg_rho c /\
    0 < ln (1 / cfg_rho c) / (2 * cfg_m c) /\
    cfg_rho c < gamma_lo c /\
    gamma_lo c <= cfg_gamma c.
Proof.
  intros Hvalid Hone.
  destruct (config_valid E Hvalid)
    as (c & Hc & Hrho & Hm1 & _ & Hm & _ & Hiff & Hkm & _).
  exists c. split; [exact Hc | ].
  assert (HL := ln_inv_pos Hrho).
  assert (Hmr : 1 <= cfg_m c) by (rewrite Hm; apply IZR_le; exact Hm1).
  assert (Hpos : 0 < ln (1 / cfg_rho c) / (2 * cfg_m c)).
  { apply Rdiv_lt_0_compat; lra. }
  assert (Hsq := sqrt_lt_R0 _ Hpos).
  repeat split; try lra.
  - unfold gamma_lo. lra.
  - apply Hiff, Hkm, Hone.
Qed.

End CalibratorExtras.

(** ** More on federated averaging *)

Section FederatedAveragingExtras.

Import NumPy FedAvg.
Local Open Scope R_scope.

Variable E : Type.

(** The entries of the aggregate of clients of one shape. *)
Lemma aggregate_weights_entries (clients_params : list (list layer)) (L d : nat) :
  clients_params <> [] ->
  (forall client, In client clients_params ->
     length client = L /\ forall ly, In ly client -> length ly = d) ->
  exists aggregated_weights,
    @aggregate_weights E clients_params = (Ok aggregated_weights, clients_params) /\
    length aggregated_weights = L /\
    forall j, (j < L)%nat ->
      length (nth j aggregated_weights []) = d /\
      forall i, (i < d)%nat ->
        nth i (nth j aggregated_weights []) 0
        = Rsum (map (fun client => nth i (nth j client []) 0) clients_params)
          / INR (length clients_params).
Proof.
  intros Hne Hshape.
  destruct clients_params as [ | client rest] eqn:Hcp; [contradiction | ].
  rewrite <- Hcp in *.
  assert (HL : length client = L).
  { apply Hshape. rewrite Hcp. left. reflexivity. }
  exists (map (fun j => mean_axis0 (column clients_params j)) (seq 0 (length client))).
  split; [ | split].
  - unfold aggregate_weights. rewrite Hcp. reflexivity.
  - rewrite length_map, length_seq. exact HL.
  - intros j Hj.
    rewrite (nth_indep _ [] (mean_axis0 (column clients_params 0)))
      by (rewrite length_map, length_seq; lia).
    rewrite (map_nth (fun j => mean_axis0 (column clients_params j))).
    rewrite seq_nth by lia. simpl.
    assert (Hcol : forall r, In r (column clients_params j) -> length r = d).
    { intros r Hin. unfold column in Hin. apply in_map_iff in Hin.
      destruct Hin as (cl & Hr & Hcl). subst r.
      destruct (Hshape cl Hcl) as [HclL Hcld].
      apply Hcld. apply nth_In. unfold layer in *. lia. }
    assert (Hcne : column clients_params j <> []).
    { unfold column. rewrite Hcp. discriminate. }
    destruct (mean_axis0_spec Hcne Hcol) as [Hlen Hnth].
    split; [exact Hlen | ].
    intros i Hi. rewrite (Hnth i Hi).
    unfold column. rewrite map_map, length_map. reflexivity.
Qed.

(** Arrays of layers with the same shape and the same entries are equal. *)
Lemma layers_ext (a b : list layer) (L d : nat) :
  length a = L -> length b = L ->
  (forall j, (j < L)%nat ->
     length (nth j a []) = d /\ length (nth j b []) = d /\
     forall i, (i < d)%nat -> nth i (nth j a []) 0 = nth i (nth j b []) 0) ->
  a = b.
Proof.
  intros Ha Hb H.
  apply (nth_ext a b [] []); [congruence | ].
  intros j Hj. rewrite Ha in Hj.
  destruct (H j Hj) as (Hla & Hlb & Hent).
  apply (nth_ext _ _ 0 0); [congruence | ].
  intros i Hi. apply Hent. unfold layer in *. lia.
Qed.

Lemma Rsum_repeat (x : R) (n : nat) : Rsum (repeat x n) = INR n * x.
Proof.
  induction n as [ | n IH]; [unfold Rsum; simpl; lra | ].
  change (repeat x (S n)) with (x :: repeat x n).
  change (Rsum (x :: repeat x n)) with (x + Rsum (repeat x n)).
  rewrite IH, S_INR. lra.
Qed.

(** X11.  Over the reals, averaging [n >= 1] clients that all hold the
    same parameters returns these parameters. *)
Theorem identical_clients_aggregate_to_themselves
  (params : list layer) (n d : nat) :
  (1 <= n)%nat ->
  (forall ly, In ly params -> length ly = d) ->
  @aggregate_weights E (repeat params n) = (Ok params, repeat params n).
Proof.
  intros Hn Hd.
  assert (Hne : repeat params n <> []) by (destruct n; [lia | discriminate]).
  destruct (@aggregate_weights_entries (repeat params n) (length params) d Hne)
    as (agg & Hrun & Hlen & Hent).
  { intros client Hin. apply repeat_spec in Hin. subst client.
    split; [reflexivity | exact Hd]. }
  rewrite Hrun. do 2 f_equal.
  apply (@layers_ext agg params (length params) d Hlen eq_refl).
  intros j Hj. destruct (Hent j Hj) as [Hl He].
  split; [exact Hl | split; [apply Hd, nth_In; exact Hj | ]].
  intros i Hi. rewrite (He i Hi), map_repeat, Rsum_repeat, repeat_length.
  unfold layer in *. field. apply not_0_INR. lia.
Qed.

(** X12.  The aggregate does not depend on the order of the clients. *)
Theorem aggregate_ignores_client_order
  (clients_params clients_params' : list (list layer)) (L d : nat) :
  clients_params <> [] ->
  (forall client, In client clients_params ->
     length client = L /\ forall ly, In ly client -> length ly = d) ->
  Permutation clients_params clients_params' ->
  fst (@aggregate_weights E clients_params)
  = fst (@aggregate_weights E clients_params').
Proof.
  intros Hne Hshape Hperm.
  assert (Hne' : clients_params' <> []).
  { intros H. subst. apply Permutation_sym, Permutation_nil in Hperm.
    contradiction. }
  assert (Hshape' : forall client, In client clients_params' ->
            length client = L /\ forall ly, In ly client -> length ly = d).
  { intros client Hin. apply Hshape.
    apply (Permutation_in _ (Permutation_sym Hperm) Hin). }
  destruct (aggregate_weights_entries Hne Hshape) as (agg & Hrun & Hlen & Hent).
  destruct (aggregate_weights_entries Hne' Hshape') as (agg' & Hrun' & Hlen' & Hent').
  rewrite Hrun, Hrun'. simpl. f_equal.
  apply (@layers_ext agg agg' L d Hlen Hlen').
  intros j Hj. destruct (Hent j Hj) as [Hl He]. destruct (Hent' j Hj) as [Hl' He'].
  split; [exact Hl | split; [exact Hl' | ]].
  intros i Hi. rewrite (He i Hi), (He' i Hi).
  rewrite (Permutation_length Hperm). f_equal.
  apply Rsum_perm. apply Permutation_map. exact Hperm.
Qed.

(** X13.  Over the reals, every aggregated parameter lies between any
    two bounds that hold for that parameter at all clients. *)
Theorem aggregate_within_client_bounds
  (clients_params : list (list layer)) (L d : nat) (lo hi : R) :
  clients_params <> [] ->
  (forall client, In client clients_params ->
     length client = L /\ forall ly, In ly client -> length ly = d) ->
  (forall client j i, In client clients_params -> (j < L)%nat -> (i < d)%nat ->
     lo <= nth i (nth j client []) 0 <= hi) ->
  exists aggregated_weights,
    @aggregate_weights E clients_params = (Ok aggregated_weights, clients_params) /\
    forall j i, (j < L)%nat -> (i < d)%nat ->
      lo <= nth i (nth j aggregated_weights []) 0 <= hi.
Proof.
  intros Hne Hshape Hbounds.
  destruct (aggregate_weights_entries Hne Hshape) as (agg & Hrun & Hlen & Hent).
  exists agg. split; [exact Hrun | ].
  intros j i Hj Hi. destruct (Hent j Hj) as [_ He]. rewrite (He i Hi).
  assert (Hmean := @mean_between
            (map (fun client : list layer => nth i (nth j client []) 0) clients_params)
            lo hi).
  rewrite length_map in Hmean. apply Hmean.
  - destruct clients_params; [contradiction | discriminate].
  - intros v Hv. apply in_map_iff in Hv. destruct Hv as (client & Hv & Hin).
    subst v. apply Hbounds; assumption.
Qed.

End FederatedAveragingExtras.

(** ** Concrete runs for the further properties *)

Section ExtraRuns.

Import NumPy Config Sampler Demo Observe FedAvg.
Local Open Scope R_scope.

Lemma sampler_wraps_nonpositive_k_witness :
  _sensitivity_sampler tape_run 5 3 0 tape
  = _sensitivity_sampler tape_run 5 3 (0 + 3) tape.
Proof.
  apply (@sampler_wraps_nonpositive_k Z Z (list Z) tape_error tape_run 5 3 0 tape).
  lia.
Defined.

Lemma tape_sampler_k_1 :
  _sensitivity_sampler tape_run 5 3 1 tape = (Ok (Finite 0, Finite (2 / 3)), []).
Proof. rewrite tape_sampler_run. reflexivity. Qed.

Lemma tape_sampler_k_3 :
  _sensitivity_sampler tape_run 5 3 3 tape = (Ok (Finite 1, Finite (2 / 3)), []).
Proof. rewrite tape_sampler_run. reflexivity. Qed.

Lemma sampler_monotone_in_k_witness :
  exists r1 r2, Finite 0 = Finite r1 /\ Finite 1 = Finite r2 /\ r1 <= r2 /\
                Finite (2 / 3) = Finite (2 / 3) /\ @nil Z = [].
Proof.
  apply (@sampler_monotone_in_k Z Z (list Z) tape_error tape_run
           5 3 1 3 tape [] [] (Finite 0) (Finite 1) (Finite (2 / 3)) (Finite (2 / 3))).
  - lia.
  - exact tape_sampler_k_1.
  - exact tape_sampler_k_3.
Defined.

Lemma estimates_come_from_the_norm_witness :
  exists c samples x mu i done si si',
    @_sensitivity_sampler_config tape_error (Some 3%Z) None = Ok c /\
    trials tape_run 5 (Z.to_nat (int (cfg_m c))) tape = (Ok samples, []) /\
    Finite 1 = Finite x /\ Finite (2 / 3) = Finite mu /\
    (i < Z.to_nat (int (cfg_m c)))%nat /\
    nth_error samples i = Some x /\
    trials tape_run 5 i tape = (Ok done, si) /\ done = firstn i samples /\
    trial tape_run 5 si = (Ok x, si') /\
    (exists v1 v2 st, norm_compute tape_run v1 v2 st = (inr x, si')) /\
    mu = Rsum samples / INR (length samples) /\
    (forall lo,
        (forall v1 v2 st y st',
            norm_compute tape_run v1 v2 st = (inr y, st') -> lo <= y) ->
        lo <= x /\ lo <= mu) /\
    (forall hi,
        (forall v1 v2 st y st',
            norm_compute tape_run v1 v2 st = (inr y, st') -> y <= hi) ->
        x <= hi /\ mu <= hi).
Proof.
  apply (@estimates_come_from_the_norm Z Z (list Z) tape_error tape_run
           5 (Some 3%Z) None tape [] (Finite 1) (Finite (2 / 3))).
  - apply valid_m_only. lia.
  - exact tape_run_m_3.
Defined.

Lemma m_only_returns_largest_sample_witness :
  exists samples x mu,
    trials tape_run 5 (Z.to_nat 3) tape = (Ok samples, []) /\
    Finite 1 = Finite x /\ Finite (2 / 3) = Finite mu /\
    In x samples /\ (forall v, In v samples -> v <= x) /\ mu <= x.
Proof.
  apply (@m_only_returns_largest_sample Z Z (list Z) tape_error tape_run
           5 3 tape [] (Finite 1) (Finite (2 / 3))).
  - lia.
  - exact tape_run_m_3.
Defined.

Lemma nonpositive_m_fails_before_sampling_witness :
  sample_sensitivity tape_run 5 (Some 0%Z) (Some (1 / 2)) tape
  = (Raise ZeroDivisionError, tape) /\
  sample_sensitivity tape_run 5 (Some (-2)%Z) None tape
  = (Raise (if (-2 =? 0)%Z then ZeroDivisionError else ValueError), tape).
Proof.
  apply (@nonpositive_m_fails_before_sampling Z Z (list Z) tape_error tape_run
           5 (-2) (Some (1 / 2)) tape).
  lia.
Defined.

Lemma tape_reordered_trials :
  trials tape_run 5 3 tape_reordered = (Ok [0; 1; 1], []).
Proof. reflexivity. Qed.

Lemma result_ignores_sample_order_witness :
  fst (_sensitivity_sampler tape_run 5 3 2 tape)
  = fst (_sensitivity_sampler tape_run 5 3 2 tape_reordered).
Proof.
  apply (@result_ignores_sample_order Z Z (list Z) tape_error tape_run tape_run
           5 5 3 2 tape [] tape_reordered [] [1; 0; 1] [0; 1; 1]).
  - lia.
  - exact tape_three_trials.
  - exact tape_reordered_trials.
  - apply perm_swap.
Defined.

Lemma tape_counting_run :
  _sensitivity_sampler (counting tape_run) 5 3 2 (tape, no_calls)
  = (Ok (Finite 1, Finite (2 / 3)), ([], mkCounts 9 18 6 3)).
Proof.
  rewrite sampler_run. change (3 <? 0)%Z with false. cbv iota.
  change (trials (counting tape_run) 5 (Z.to_nat 3) (tape, no_calls))
    with (@Ok tape_error _ [1; 0; 1], (@nil Z, mkCounts 9 18 6 3)).
  cbv iota beta. rewrite sort_three_samples.
  replace (mean [Finite 0; Finite 1; Finite 1]) with (Finite (2 / 3)).
  - reflexivity.
  - unfold mean, div_count, sum. simpl. f_equal. field.
Qed.

Lemma sampler_call_counts_witness :
  _sensitivity_sampler tape_run 5 3 2 tape
  = (Ok (Finite 1, Finite (2 / 3)), fst (@nil Z, mkCounts 9 18 6 3)) /\
  snd (@nil Z, mkCounts 9 18 6 3)
  = mkCounts (3 * Z.to_nat 3) (3 * (5 + 1)) (2 * Z.to_nat 3) (Z.to_nat 3).
Proof.
  apply (@sampler_call_counts Z Z (list Z) tape_error tape_run 5 3 2 tape
           (Finite 1, Finite (2 / 3)) ([], mkCounts 9 18 6 3)).
  exact tape_counting_run.
Defined.

Lemma computed_m_is_least_sufficient_witness :
  exists (c : config) (M : Z),
    @_sensitivity_sampler_config tape_error None (Some (1 / 2)) = Ok c /\
    cfg_m c = IZR M /\ (1 <= M)%Z /\
    0 < cfg_rho c < 1 / 2 /\
    cfg_rho c + sqrt (ln (1 / cfg_rho c) / (2 * IZR M)) <= 1 / 2 /\
    forall M' : Z, (1 <= M' < M)%Z ->
      1 / 2 < cfg_rho c + sqrt (ln (1 / cfg_rho c) / (2 * IZR M')).
Proof.
  apply (@computed_m_is_least_sufficient tape_error (1 / 2)). lra.
Defined.

Lemma rho_below_returned_gamma_witness :
  exists c,
    @_sensitivity_sampler_config tape_error None (Some (1 / 2)) = Ok c /\
    0 < cfg_rho c /\
    0 < ln (1 / cfg_rho c) / (2 * cfg_m c) /\
    cfg_rho c < gamma_lo c /\
    gamma_lo c <= cfg_gamma c.
Proof.
  apply (@rho_below_returned_gamma tape_error None (Some (1 / 2))).
  - repeat split; [lra | lra | right; discriminate].
  - left. reflexivity.
Defined.

Lemma identical_clients_aggregate_to_themselves_witness :
  @aggregate_weights unit (repeat [[1; 2]; [3; 4]] 3)
  = (Ok [[1; 2]; [3; 4]], repeat [[1; 2]; [3; 4]] 3).
Proof.
  apply (@identical_clients_aggregate_to_themselves unit [[1; 2]; [3; 4]] 3 2).
  - lia.
  - intros ly [H | [H | []]]; subst ly; reflexivity.
Defined.

Lemma aggregate_ignores_client_order_witness :
  fst (@aggregate_weights unit [[[1; 2]; [3; 4]]; [[3; 4]; [5; 8]]])
  = fst (@aggregate_weights unit [[[3; 4]; [5; 8]]; [[1; 2]; [3; 4]]]).
Proof.
  apply (@aggregate_ignores_client_order unit
           [[[1; 2]; [3; 4]]; [[3; 4]; [5; 8]]]
           [[[3; 4]; [5; 8]]; [[1; 2]; [3; 4]]] 2 2).
  - discriminate.
  - intros client [H | [H | []]]; subst client; (split; [reflexivity | ]);
      intros ly [H | [H | []]]; subst ly; reflexivity.
  - apply perm_swap.
Defined.

Lemma aggregate_within_client_bounds_witness :
  exists aggregated_weights,
    @aggregate_weights unit [[[1; 2]; [3; 4]]; [[3; 4]; [5; 8]]]
    = (Ok aggregated_weights, [[[1; 2]; [3; 4]]; [[3; 4]; [5; 8]]]) /\
    forall j i, (j < 2)%nat -> (i < 2)%nat ->
      1 <= nth i (nth j aggregated_weights []) 0 <= 8.
Proof.
  apply (@aggregate_within_client_bounds unit
           [[[1; 2]; [3; 4]]; [[3; 4]; [5; 8]]] 2 2 1 8).
  - discriminate.
  - intros client [H | [H | []]]; subst client; (split; [reflexivity | ]);
      intros ly [H | [H | []]]; subst ly; reflexivity.
  - intros client j i [H | [H | []]] Hj Hi; subst client;
      destruct j as [ | [ | j]]; try lia;
      destruct i as [ | [ | i]]; try lia; simpl; lra.
Defined.

End ExtraRuns.
